(** * IA Resumen Santander: the extraction and normalisation pipeline

    A shallow embedding of [ia_santander.py]: the amount normaliser
    [_parse_amount], the description classifier [_clasificar_movimiento],
    the table walker and ledger builder [parse_santander_pdf], and the two
    aggregations [construir_resumen_impositivo] and [calcular_saldos].
    The page set-up, the widgets and the export to a spreadsheet are not
    part of it, and the PDF reader is taken as the provider of the tables
    of each page.

    Text.  A Python [str] is represented by its UTF-8 encoding in a Rocq
    [string]; on well-formed UTF-8, searching, replacing and comparing byte
    sequences agree with the same operations on code points.  White space
    is the full set recognised by [str.isspace].  Case mapping covers Basic
    Latin and the Latin-1 Supplement (the alphabet of the statement), and
    decimal digits are the ASCII ones; other scripts are left untouched.

    Numbers.  A Python [float] is an IEEE 754 binary64 value, represented
    by [spec_float] with precision 53 and maximal exponent 1024.

    Frames.  A data frame is the list of its rows, a row a record of its
    columns; the empty frame is the empty list. *)

From Stdlib Require Import ZArith NArith Bool List Ascii String Lia.
From Stdlib Require Import Sorting.Permutation Sorting.Sorted.
From Stdlib Require Import Floats.SpecFloat.
Import ListNotations.

Local Open Scope string_scope.
Local Open Scope Z_scope.

(** ** Strings *)

Module PyStr.

Definition code (c : ascii) : N := N_of_ascii c.

(** [needle in hay] at the first position of [hay]. *)
Fixpoint startswith (p s : string) : bool :=
  match p, s with
  | EmptyString, _ => true
  | String a p', String b s' => Ascii.eqb a b && startswith p' s'
  | String _ _, EmptyString => false
  end.

(** The operator [needle in hay]. *)
Fixpoint contains (needle hay : string) : bool :=
  startswith needle hay ||
  match hay with
  | EmptyString => false
  | String _ hay' => contains needle hay'
  end.

(** [s.replace(old, new)] for a non-empty [old]: occurrences are found
    from left to right and do not overlap.  [skip] counts the characters
    of an occurrence that was just replaced and are still to be dropped. *)
Fixpoint replace_from (old new : string) (skip : nat) (s : string) : string :=
  match s with
  | EmptyString => EmptyString
  | String c s' =>
      match skip with
      | S k => replace_from old new k s'
      | O =>
          if startswith old s
          then new ++ replace_from old new (String.length old - 1) s'
          else String c (replace_from old new 0 s')
      end
  end.

Definition replace (old new s : string) : string := replace_from old new 0 s.

(** White space, as [str.isspace] has it, by the length of the UTF-8
    encoding: U+0009..U+000D, U+001C..U+0020; U+0085, U+00A0; U+1680,
    U+2000..U+200A, U+2028, U+2029, U+202F, U+205F, U+3000. *)
Definition space1 (a : ascii) : bool :=
  let n := code a in
  ((9 <=? n) && (n <=? 13) || (28 <=? n) && (n <=? 32))%N.

Definition space2 (a b : ascii) : bool :=
  ((code a =? 194) && ((code b =? 133) || (code b =? 160)))%N.

Definition space3 (a b c : ascii) : bool :=
  let '(x, y, z) := (code a, code b, code c) in
  ((x =? 225) && (y =? 154) && (z =? 128)
   || (x =? 226) && (y =? 128)
      && ((128 <=? z) && (z <=? 138) || (z =? 168) || (z =? 169) || (z =? 175))
   || (x =? 226) && (y =? 129) && (z =? 159)
   || (x =? 227) && (y =? 128) && (z =? 128))%N.

Fixpoint lstrip (s : string) : string :=
  match s with
  | String a r1 =>
      if space1 a then lstrip r1 else
      match r1 with
      | String b r2 =>
          if space2 a b then lstrip r2 else
          match r2 with
          | String c r3 => if space3 a b c then lstrip r3 else s
          | EmptyString => s
          end
      | EmptyString => s
      end
  | EmptyString => s
  end.

Fixpoint rev_onto (s acc : string) : string :=
  match s with
  | EmptyString => acc
  | String c s' => rev_onto s' (String c acc)
  end.

Definition rev (s : string) : string := rev_onto s EmptyString.

(** [lstrip] on the reversed text: the bytes of a character come last
    byte first. *)
Fixpoint lstrip_rev (s : string) : string :=
  match s with
  | String a r1 =>
      if space1 a then lstrip_rev r1 else
      match r1 with
      | String b r2 =>
          if space2 b a then lstrip_rev r2 else
          match r2 with
          | String c r3 => if space3 c b a then lstrip_rev r3 else s
          | EmptyString => s
          end
      | EmptyString => s
      end
  | EmptyString => s
  end.

Definition rstrip (s : string) : string := rev (lstrip_rev (rev s)).

(** [s.strip()] *)
Definition strip (s : string) : string := rstrip (lstrip s).

(** [s.lower()]: A..Z, and the capitals U+00C0..U+00DE of the Latin-1
    Supplement except the multiplication sign U+00D7, whose encodings
    are the lead byte 195 followed by 128..158. *)
Definition lower_ascii (c : ascii) : ascii :=
  let n := code c in
  if ((65 <=? n) && (n <=? 90))%N then ascii_of_N (n + 32) else c.

Definition lower_latin1 (c : ascii) : ascii :=
  let n := code c in
  if ((128 <=? n) && (n <=? 158) && negb (n =? 151))%N
  then ascii_of_N (n + 32) else c.

Fixpoint lower_from (after_lead : bool) (s : string) : string :=
  match s with
  | EmptyString => EmptyString
  | String c s' =>
      if after_lead then String (lower_latin1 c) (lower_from false s')
      else String (lower_ascii c) (lower_from (code c =? 195)%N s')
  end.

Definition lower (s : string) : string := lower_from false s.

(** [sep.join(parts)] *)
Fixpoint join (sep : string) (parts : list string) : string :=
  match parts with
  | [] => EmptyString
  | [p] => p
  | p :: rest => p ++ sep ++ join sep rest
  end.

(** Ordering of [str] values: lexicographic on code points, which on
    UTF-8 is lexicographic on bytes. *)
Fixpoint compare (s t : string) : comparison :=
  match s, t with
  | EmptyString, EmptyString => Eq
  | EmptyString, String _ _ => Lt
  | String _ _, EmptyString => Gt
  | String a s', String b t' =>
      match N.compare (code a) (code b) with
      | Eq => compare s' t'
      | o => o
      end
  end.

Definition is_digit (c : ascii) : bool :=
  ((48 <=? code c) && (code c <=? 57))%N.

Definition digit_value (c : ascii) : Z := Z.of_N (code c) - 48.

End PyStr.

(** ** Floats *)

Module PyFloat.
Import PyStr.

Definition float : Type := spec_float.

Definition prec : Z := 53.
Definition emax : Z := 1024.

(** The literal [0.0]. *)
Definition zero : float := S754_zero false.

(** Unary minus, [abs], [x > y] and [x + y]. *)
Definition neg (x : float) : float := SFopp x.
Definition abs (x : float) : float := SFabs x.
Definition gt (x y : float) : bool := SFltb y x.
Definition ge (x y : float) : bool := SFleb y x.
Definition lt (x y : float) : bool := SFltb x y.
Definition add (x y : float) : float := SFadd prec emax x y.

Definition is_nan (x : float) : bool :=
  match x with S754_nan => true | _ => false end.


(** The double of an integer, [float(z)]. *)
Definition of_Z (z : Z) : float := binary_normalize prec emax z 0 false.

(** The double nearest to [m * 10 ^ e] for a digit string of value
    [m >= 0], ties to even; a magnitude beyond the largest double
    rounds to infinity, one below the smallest to zero. *)
Definition of_decimal (sign : bool) (m e : Z) : float :=
  match m with
  | Zpos p =>
      if 0 <=? e
      then binary_round prec emax sign (p * Z.to_pos (10 ^ e)) 0
      else
        let '(q, e', l) :=
          SFdiv_core_binary prec emax (Zpos p) 0 (10 ^ (- e)) 0 in
        binary_round_aux prec emax sign q e' l
  | _ => S754_zero sign
  end.

(** *** The constructor [float(s)]

    [None] stands for the [ValueError] that [float] raises.  The text
    is stripped; an underscore may only stand between two digits; what
    is left is [[sign] (number [exponent] | "inf" | "infinity" | "nan")]
    with the words in any letter case. *)

Fixpoint remove_underscores (prev : ascii) (s : string) : option string :=
  match s with
  | EmptyString => if Ascii.eqb prev "_" then None else Some EmptyString
  | String c s' =>
      if Ascii.eqb c "_" then
        if is_digit prev then remove_underscores c s' else None
      else if Ascii.eqb prev "_" && negb (is_digit c) then None
      else option_map (String c) (remove_underscores c s')
  end.

Fixpoint span_digits (s : string) : string * string :=
  match s with
  | String c s' =>
      if is_digit c
      then let '(d, r) := span_digits s' in (String c d, r)
      else (EmptyString, s)
  | EmptyString => (EmptyString, EmptyString)
  end.

Fixpoint digits_value (acc : Z) (d : string) : Z :=
  match d with
  | EmptyString => acc
  | String c d' => digits_value (10 * acc + digit_value c) d'
  end.

Definition split_sign (s : string) : bool * string :=
  match s with
  | String "-" r => (true, r)
  | String "+" r => (false, r)
  | _ => (false, s)
  end.

(** The exponent part: nothing, or [e] or [E], an optional sign and at
    least one digit, up to the end of the text. *)
Definition parse_exponent (s : string) : option Z :=
  match s with
  | EmptyString => Some 0
  | String c r =>
      if Ascii.eqb c "e" || Ascii.eqb c "E" then
        let '(esign, r1) := split_sign r in
        let '(d, r2) := span_digits r1 in
        match d, r2 with
        | String _ _, EmptyString =>
            Some (if esign then - digits_value 0 d else digits_value 0 d)
        | _, _ => None
        end
      else None
  end.

Definition parse_inf_or_nan (sign : bool) (s : string) : option float :=
  let w := lower s in
  if String.eqb w "inf" || String.eqb w "infinity" then Some (S754_infinity sign)
  else if String.eqb w "nan" then Some S754_nan
  else None.

Definition parse_number (sign : bool) (s : string) : option float :=
  let '(ip, r1) := span_digits s in
  let '(fp, r2) :=
    match r1 with
    | String "." r => span_digits r
    | _ => (EmptyString, r1)
    end in
  match ip ++ fp with
  | EmptyString => parse_inf_or_nan sign s
  | String _ _ as ds =>
      match parse_exponent r2 with
      | Some ex =>
          Some (of_decimal sign (digits_value 0 ds)
                           (ex - Z.of_nat (String.length fp)))
      | None => None
      end
  end.

Definition py_float (s : string) : option float :=
  match remove_underscores "000" (strip s) with
  | Some t => let '(sign, r) := split_sign t in parse_number sign r
  | None => None
  end.

End PyFloat.

Import PyStr PyFloat.

(** ** [_parse_amount] *)

(** The no-break space U+00A0. *)
Definition nbsp : string := String "194" (String "160" EmptyString).

(** The text handed to [float]: currency sign and spaces removed, the
    thousands points dropped, the decimal comma turned into a point. *)
Definition clean_amount (s : string) : string :=
  let s := replace " " EmptyString (replace nbsp " " (replace "$" EmptyString s)) in
  replace "," "." (replace "." EmptyString s).

Definition _parse_amount (text : option string) : float :=
  match text with
  | None => zero
  | Some t =>
      let s := strip t in
      if String.eqb s EmptyString || String.eqb s "-" then zero
      else
        match py_float (clean_amount s) with
        | Some x => x
        | None => zero
        end
  end.

(** ** [_clasificar_movimiento] *)

(** [x or <empty text>] on an optional text. *)
Definition or_empty (x : option string) : string :=
  match x with
  | Some s => s
  | None => EmptyString
  end.

Definition _clasificar_movimiento (desc : option string) : string :=
  let d := lower (or_empty desc) in
  if contains "impuesto ley 25.413" d || contains "impuesto ley 25413" d then
    if contains "debito" d then "IMP. LEY 25.413 - DÉBITOS"
    else if contains "credito" d then "IMP. LEY 25.413 - CRÉDITOS"
    else "IMP. LEY 25.413"
  else if contains "sircreb" d then "SIRCREB"
  else if contains "iva 21" d || contains "iva 21% reg" d then "IVA 21%"
  else if contains "iva percepcion" d || contains "iva percepción" d
       then "IVA PERCEPCIÓN"
  else if contains "comision por servicio de cuenta" d then "COMISIÓN CUENTA"
  else if contains "pago haberes" d then "PAGO HABERES"
  else if contains "deposito de efectivo" d || contains "deposito efvo" d
       then "DEPÓSITO EFECTIVO"
  else "OTROS".

(** ** The date pattern and the date parser *)

(** The fragment of regular expressions the program uses: a decimal digit
    [\d] or a literal character. *)
Inductive atom : Type :=
| Digit
| Lit (c : ascii).

Definition atom_matches (a : atom) (c : ascii) : bool :=
  match a with
  | Digit => is_digit c
  | Lit x => Ascii.eqb x c
  end.

(** [re.match(pat, s)]: the pattern is matched at the start of [s] and
    nothing is asked of what follows it. *)
Fixpoint re_match (pat : list atom) (s : string) : bool :=
  match pat with
  | [] => true
  | a :: pat' =>
      match s with
      | EmptyString => false
      | String c s' => atom_matches a c && re_match pat' s'
      end
  end.

(** [r"\d{2}/\d{2}/\d{2}"] *)
Definition fecha_re : list atom :=
  [Digit; Digit; Lit "/"; Digit; Digit; Lit "/"; Digit; Digit].

Record Timestamp : Type := { year : Z; month : Z; day : Z }.

Definition is_leap (y : Z) : bool :=
  (y mod 4 =? 0) && (negb (y mod 100 =? 0) || (y mod 400 =? 0)).

Definition days_in_month (y m : Z) : Z :=
  if m =? 2 then (if is_leap y then 29 else 28)
  else if (m =? 4) || (m =? 6) || (m =? 9) || (m =? 11) then 30
  else 31.

(** The directives of [strptime], each listing its readings of the start
    of the text in the order of the alternatives of its pattern, with
    the rest of the text:
    [%d] is [3[0-1]|[1-2]\d|0[1-9]|[1-9]| [1-9]],
    [%m] is [1[0-2]|0[1-9]|[1-9]], [%y] is [\d\d]. *)
Definition two_digits (ok : Z -> Z -> bool) (s : string) : list (Z * string) :=
  match s with
  | String a (String b r) =>
      if is_digit a && is_digit b && ok (digit_value a) (digit_value b)
      then [(10 * digit_value a + digit_value b, r)] else []
  | _ => []
  end.

Definition one_digit (s : string) : list (Z * string) :=
  match s with
  | String a r =>
      if is_digit a && (1 <=? digit_value a) then [(digit_value a, r)] else []
  | _ => []
  end.

Definition directive_d (s : string) : list (Z * string) :=
  two_digits (fun a b => (a =? 3) && (b <=? 1)) s
  ++ two_digits (fun a _ => (1 <=? a) && (a <=? 2)) s
  ++ two_digits (fun a b => (a =? 0) && (1 <=? b)) s
  ++ one_digit s
  ++ match s with
     | String " " r => one_digit r
     | _ => []
     end.

Definition directive_m (s : string) : list (Z * string) :=
  two_digits (fun a b => (a =? 1) && (b <=? 2)) s
  ++ two_digits (fun a b => (a =? 0) && (1 <=? b)) s
  ++ one_digit s.

Definition directive_y (s : string) : list (Z * string) :=
  two_digits (fun _ _ => true) s.

Definition literal (c : ascii) (s : string) : list string :=
  match s with
  | String a r => if Ascii.eqb a c then [r] else []
  | EmptyString => []
  end.

(** The first way of reading the text as [%d/%m/%y], as a backtracking
    matcher finds it: the fields and what is left of the text. *)
Definition match_dmy (s : string) : option (Z * Z * Z * string) :=
  hd_error
    (flat_map (fun '(d, r1) =>
       flat_map (fun r2 =>
         flat_map (fun '(m, r3) =>
           flat_map (fun r4 =>
             map (fun '(y, r5) => (d, m, y, r5)) (directive_y r4))
             (literal "/" r3))
           (directive_m r2))
         (literal "/" r1))
       (directive_d s)).

(** [pd.to_datetime(s, format="%d/%m/%y", errors="coerce")] on one value;
    [None] is [NaT].  The whole text has to be read, a two-digit year up
    to 68 is in the 2000s and from 69 in the 1900s, and the day has to
    exist in its month. *)
Definition to_datetime (s : string) : option Timestamp :=
  match match_dmy s with
  | Some (d, m, y, EmptyString) =>
      let y := if y <=? 68 then y + 2000 else y + 1900 in
      if d <=? days_in_month y m
      then Some {| year := y; month := m; day := d |}
      else None
  | _ => None
  end.

(** ** Rows and the ledger *)

Module Fila.
(** The dictionary built for one accepted row of the table. *)
Record t : Type := {
  fecha_str : string;
  comprobante : string;
  movimiento : string;
  debito : float;
  credito : float;
  saldo : float;
  tipo : string;
  importe : float;
  importe_raw : float
}.
End Fila.

(** One row of the data frame the parser returns, columns in its order. *)
Record Transaction : Type := {
  fecha : option Timestamp;
  fecha_str : string;
  comprobante : string;
  movimiento : string;
  categoria : string;
  tipo : string;
  debito : float;
  credito : float;
  importe : float;
  importe_raw : float;
  saldo : float
}.

Definition DataFrame : Type := list Transaction.

(** A cell of an extracted table is a text or [None]. *)
Definition cell : Type := option string.
Definition table : Type := list (list cell).

(** [any(raw_row)]: some cell is a non-empty text. *)
Definition any_cell (raw_row : list cell) : bool :=
  existsb (fun c => match c with
                    | Some (String _ _) => true
                    | _ => false
                    end) raw_row.

(** The list of cells filled up with empty texts when there are fewer
    than six. *)
Definition pad_to_six (cells : list string) : list string :=
  if (List.length cells <? 6)%nat
  then cells ++ repeat EmptyString (6 - List.length cells)
  else cells.

(** Direction and amounts of a row from its parsed debit and credit:
    [(tipo, importe_raw, importe)]. *)
Definition direction (deb cred : float) : string * float * float :=
  if gt (abs deb) zero then ("DEBITO", deb, neg deb)
  else if gt (abs cred) zero then ("CREDITO", cred, cred)
  else (EmptyString, zero, zero).

(** The body of the loop over the rows of a qualifying table: [None] when
    the row is skipped, the appended dictionary otherwise. *)
Definition read_row (raw_row : list cell) : option Fila.t :=
  if negb (any_cell raw_row) then None
  else
    let cells := pad_to_six (map (fun c => strip (or_empty c)) raw_row) in
    match cells with
    | fecha_txt :: comp :: mov :: deb_txt :: cred_txt :: saldo_txt :: _ =>
        if negb (re_match fecha_re fecha_txt) then None
        else
          let deb := _parse_amount (Some deb_txt) in
          let cred := _parse_amount (Some cred_txt) in
          let sal := _parse_amount (Some saldo_txt) in
          let '(tp, raw, imp) := direction deb cred in
          Some {| Fila.fecha_str := fecha_txt;
                  Fila.comprobante := comp;
                  Fila.movimiento := mov;
                  Fila.debito := deb;
                  Fila.credito := cred;
                  Fila.saldo := sal;
                  Fila.tipo := tp;
                  Fila.importe := imp;
                  Fila.importe_raw := raw |}
    | _ => None
    end.

(** The rows a table contributes: none unless it has a header and a row
    and the joined header names both [fecha] and [saldo]. *)
Definition read_table (tb : table) : list Fila.t :=
  if (List.length tb <? 2)%nat then []
  else
    match tb with
    | [] => []
    | header_row :: body =>
        let header := map (fun c => lower (strip (or_empty c))) header_row in
        let header_join := join " " header in
        if contains "fecha" header_join && contains "saldo" header_join
        then flat_map (fun raw_row => match read_row raw_row with
                                      | Some r => [r]
                                      | None => []
                                      end) body
        else []
    end.

(** The columns [fecha] and [categoria] added to a row. *)
Definition complete (r : Fila.t) : Transaction :=
  {| fecha := to_datetime (Fila.fecha_str r);
     fecha_str := Fila.fecha_str r;
     comprobante := Fila.comprobante r;
     movimiento := Fila.movimiento r;
     categoria := _clasificar_movimiento (Some (Fila.movimiento r));
     tipo := Fila.tipo r;
     debito := Fila.debito r;
     credito := Fila.credito r;
     importe := Fila.importe r;
     importe_raw := Fila.importe_raw r;
     saldo := Fila.saldo r |}.

(** *** [sort_values]

    A stable sort by a list of columns; a missing value ([NaT]) comes
    after every value, [na_position] being left at ["last"]. *)

Definition timestamp_compare (a b : Timestamp) : comparison :=
  match Z.compare (year a) (year b) with
  | Eq => match Z.compare (month a) (month b) with
          | Eq => Z.compare (day a) (day b)
          | o => o
          end
  | o => o
  end.

Definition fecha_compare (a b : option Timestamp) : comparison :=
  match a, b with
  | Some x, Some y => timestamp_compare x y
  | Some _, None => Lt
  | None, Some _ => Gt
  | None, None => Eq
  end.

(** Comparison of two rows on the columns [["fecha", "comprobante"]]. *)
Definition key_compare (a b : Transaction) : comparison :=
  match fecha_compare (fecha a) (fecha b) with
  | Eq => PyStr.compare (comprobante a) (comprobante b)
  | o => o
  end.

Section StableSort.
Context {A : Type}.
Variable cmp : A -> A -> comparison.

Definition le_by (x y : A) : bool :=
  match cmp x y with
  | Gt => false
  | _ => true
  end.

(** [x] goes before the first row that is not smaller than it, hence
    before the rows of equal key already placed, which came after it. *)
Fixpoint insert_by (x : A) (l : list A) : list A :=
  match l with
  | [] => [x]
  | y :: l' => if le_by x y then x :: l else y :: insert_by x l'
  end.

Fixpoint stable_sort (l : list A) : list A :=
  match l with
  | [] => []
  | x :: l' => insert_by x (stable_sort l')
  end.
End StableSort.

Definition sort_values (df : DataFrame) : DataFrame :=
  stable_sort key_compare df.

(** The document as the table reader hands it over: for each page, the
    tables found on it.  [extract_rows] is the loop that fills [rows], in
    the order of the document. *)
Definition extract_rows (pdf : list (list table)) : list Fila.t :=
  flat_map (fun tables => flat_map read_table tables) pdf.

Definition parse_santander_pdf (pdf : list (list table)) : DataFrame :=
  let rows := extract_rows pdf in
  match rows with
  | [] => []
  | _ => sort_values (map complete rows)
  end.

(** ** [construir_resumen_impositivo] *)

Definition categorias_interes : list string :=
  [ "IMP. LEY 25.413 - DÉBITOS";
    "IMP. LEY 25.413 - CRÉDITOS";
    "IMP. LEY 25.413";
    "SIRCREB";
    "IVA 21%";
    "IVA PERCEPCIÓN";
    "COMISIÓN CUENTA" ].

(** [Series.isin] *)
Definition isin (x : string) (values : list string) : bool :=
  existsb (String.eqb x) values.

(** [Series.sum]: missing values are skipped, the others are added up in
    the order of the rows, starting from [0.0]. *)
Definition series_sum (values : list float) : float :=
  fold_left add (filter (fun x => negb (is_nan x)) values) zero.

(** The group keys of [groupby]: the distinct values of the column, in
    ascending order. *)
Fixpoint insert_key (k : string) (keys : list string) : list string :=
  match keys with
  | [] => [k]
  | k' :: rest =>
      match PyStr.compare k k' with
      | Lt => k :: keys
      | Eq => keys
      | Gt => k' :: insert_key k rest
      end
  end.

Definition group_keys (df : DataFrame) : list string :=
  fold_right insert_key [] (map categoria df).

(** [df.groupby("categoria", as_index=False)["importe_raw"].sum()] with
    the columns renamed: one pair [(Concepto, Importe)] per group. *)
Definition groupby_sum (df : DataFrame) : list (string * float) :=
  map (fun k =>
         (k, series_sum
               (map importe_raw
                    (filter (fun t => String.eqb (categoria t) k) df))))
      (group_keys df).

(** Position of a value in a list, the dictionary [orden]. *)
Fixpoint index_of (x : string) (l : list string) : option nat :=
  match l with
  | [] => None
  | y :: l' => if String.eqb x y then Some O else option_map S (index_of x l')
  end.

(** [resumen["Concepto"].map(orden).fillna(999)] *)
Definition orden (concepto : string) : Z :=
  match index_of concepto categorias_interes with
  | Some i => Z.of_nat i
  | None => 999
  end.

Definition construir_resumen_impositivo (df : DataFrame)
  : list (string * float) :=
  match df with
  | [] => []
  | _ =>
      let df_imp := filter (fun t => isin (categoria t) categorias_interes) df in
      match df_imp with
      | [] => []
      | _ =>
          let resumen := groupby_sum df_imp in
          stable_sort (fun a b => Z.compare (orden (fst a)) (orden (fst b)))
                      resumen
      end
  end.

(** ** [calcular_saldos] *)

(** [Series.str.contains(pat, case=False)] on one value, for a pattern
    without special characters. *)
Definition str_contains_nocase (pat s : string) : bool :=
  contains (lower pat) (lower s).

Definition calcular_saldos (df : DataFrame) : float * float :=
  match df with
  | [] => (zero, zero)
  | first :: _ =>
      let mask_si :=
        fun t => str_contains_nocase "saldo inicial" (movimiento t) in
      let saldo_inicial :=
        if existsb mask_si df
        then match filter mask_si df with
             | t :: _ => saldo t
             | [] => saldo first
             end
        else saldo first in
      let saldo_final := saldo (last df first) in
      (saldo_inicial, saldo_final)
  end.

(** ** Vocabulary of the statements *)

(** The text the date pattern is tried on: the first cell, [None] read as
    empty, stripped; empty when the row has no cell. *)
Definition date_field (raw_row : list cell) : string :=
  strip (or_empty (hd None raw_row)).


(** The transaction a raw row yields, if it is accepted. *)
Definition build_row (raw_row : list cell) : option Transaction :=
  option_map complete (read_row raw_row).

(** A description contains [needle] when letter case is ignored. *)
Definition mentions (needle desc : string) : bool :=
  contains needle (lower desc).

(** The marker of the tax of law 25.413, in either spelling. *)
Definition mentions_ley_25413 (desc : string) : bool :=
  mentions "impuesto ley 25.413" desc || mentions "impuesto ley 25413" desc.


(** Equality of sort keys [(fecha, comprobante)]; [NaT] equals [NaT]. *)
Definition timestamp_eqb (a b : Timestamp) : bool :=
  (year a =? year b) && (month a =? month b) && (day a =? day b).

Definition fecha_eqb (a b : option Timestamp) : bool :=
  match a, b with
  | Some x, Some y => timestamp_eqb x y
  | None, None => true
  | _, _ => false
  end.

Definition same_key (a b : Transaction) : bool :=
  fecha_eqb (fecha a) (fecha b) && String.eqb (comprobante a) (comprobante b).

(** Order of the sort keys, date ascending and then reference ascending:
    [a] has the earlier date, or the same date and a reference that is
    not greater.  A missing date counts as later than every date. *)
Definition key_le (a b : Transaction) : Prop :=
  fecha_compare (fecha a) (fecha b) = Lt
  \/ (fecha a = fecha b
      /\ PyStr.compare (comprobante a) (comprobante b) <> Gt).

(** The entry of the summary for a category, and whether a category
    occurs in the ledger. *)
Definition rows_of (c : string) (df : DataFrame) : DataFrame :=
  filter (fun t => String.eqb (categoria t) c) df.

Definition summary_entry (df : DataFrame) (c : string) : string * float :=
  (c, series_sum (map importe_raw (rows_of c df))).

Definition occurs (df : DataFrame) (c : string) : bool :=
  existsb (fun t => String.eqb (categoria t) c) df.


(** The rows of the ledger in a category of the allow-list, the frame
    [df_imp]. *)
Definition tax_rows (df : DataFrame) : DataFrame :=
  filter (fun t => isin (categoria t) categorias_interes) df.

(** Strict order of [str] values. *)
Definition str_lt (s t : string) : Prop := PyStr.compare s t = Lt.

(** The sort key of a row and the comparison of keys. *)
Definition sort_key (t : Transaction) : option Timestamp * string :=
  (fecha t, comprobante t).

(** A comparison that is a total order: [Eq] is equality, swapping the
    arguments swaps [Lt] and [Gt], and [Lt] is transitive. *)
Record total_order {K : Type} (cmp : K -> K -> comparison) : Prop := {
  order_eq : forall x y, cmp x y = Eq <-> x = y;
  order_antisym : forall x y, cmp y x = CompOpp (cmp x y);
  order_trans : forall x y z, cmp x y = Lt -> cmp y z = Lt -> cmp x z = Lt
}.

(** Lexicographic combination, as [sort_values] compares on a list of
    columns. *)
Definition lex {K1 K2 : Type} (c1 : K1 -> K1 -> comparison)
           (c2 : K2 -> K2 -> comparison) (x y : K1 * K2) : comparison :=
  match c1 (fst x) (fst y) with
  | Eq => c2 (snd x) (snd y)
  | o => o
  end.

(** Missing values after every value. *)
Definition missing_last {K : Type} (c : K -> K -> comparison)
           (a b : option K) : comparison :=
  match a, b with
  | Some x, Some y => c x y
  | Some _, None => Lt
  | None, Some _ => Gt
  | None, None => Eq
  end.

(** A statement of three movements, as the table reader would hand it
    over: one page with one table. *)
Definition sample_statement : list (list table) :=
  [[ [ [Some "Fecha"; Some "Comprobante"; Some "Movimiento";
        Some "Débito"; Some "Crédito"; Some "Saldo"];
       [Some "01/01/24"; Some "A"; Some "Saldo Inicial";
        Some EmptyString; Some EmptyString; Some "1000,00"];
       [Some "02/01/24"; Some "B"; Some "Impuesto Ley 25.413 Debito";
        Some "10,00"; Some EmptyString; Some "990,00"];
       [Some "03/01/24"; Some "C"; Some "Deposito de efectivo";
        Some EmptyString; Some "500,00"; Some "1490,00"] ] ]].

(** ** Vocabulary of the further properties *)

(** Every character of a text satisfies a test. *)
Fixpoint all_chars (p : ascii -> bool) (s : string) : bool :=
  match s with
  | EmptyString => true
  | String c s' => p c && all_chars p s'
  end.

(** The digits of a text, in order. *)
Fixpoint digits_of (s : string) : string :=
  match s with
  | EmptyString => EmptyString
  | String c s' => if is_digit c then String c (digits_of s') else digits_of s'
  end.

(** What an amount may be dressed with: thousands points, the currency
    sign and blanks. *)
Definition is_grouping (c : ascii) : bool :=
  Ascii.eqb c "." || Ascii.eqb c "$" || Ascii.eqb c " ".

Definition is_amount_char (c : ascii) : bool := is_digit c || is_grouping c.

(** An amount as the statement prints it: an optional minus sign, an
    integer part [w] of digits with points, currency signs and blanks
    among them and, optionally, a comma and the decimals. *)
Definition amount_text (minus : bool) (w : string) (dec : option string)
  : string :=
  (if minus then "-" else EmptyString)
  ++ w
  ++ match dec with
     | Some fp => "," ++ fp
     | None => EmptyString
     end.

(** [s.replace(c, new)] for a single character [c], one character at a
    time. *)
Fixpoint replace_char (c : ascii) (new s : string) : string :=
  match s with
  | EmptyString => EmptyString
  | String a s' =>
      if Ascii.eqb c a then new ++ replace_char c new s'
      else String a (replace_char c new s')
  end.

(** The cleaning of [clean_amount] one character at a time: the currency
    sign, the blank and the point are dropped and the comma becomes a
    point. *)
Fixpoint clean_chars (s : string) : string :=
  match s with
  | EmptyString => EmptyString
  | String a s' =>
      if Ascii.eqb a "$" || Ascii.eqb a " " || Ascii.eqb a "." then clean_chars s'
      else if Ascii.eqb a "," then String "." (clean_chars s')
      else String a (clean_chars s')
  end.

(** A text without its leading blanks. *)
Fixpoint drop_blanks (s : string) : string :=
  match s with
  | String a s' => if Ascii.eqb a " " then drop_blanks s' else s
  | EmptyString => s
  end.

(** Characters of one byte that [strip] removes only when they are the
    blank: the letters of an amount. *)
Definition is_plain (c : ascii) : bool :=
  is_digit c || Ascii.eqb c "." || Ascii.eqb c "$" || Ascii.eqb c " "
  || Ascii.eqb c "," || Ascii.eqb c "-".

(** The characters of a cleaned amount: digits, the point and the minus
    sign. *)
Definition is_number_char (c : ascii) : bool :=
  is_digit c || Ascii.eqb c "." || Ascii.eqb c "-".

(** The value is a zero, a finite number or an infinity of sign [s]. *)
Definition has_sign (s : bool) (x : float) : Prop :=
  match x with
  | S754_zero s' | S754_infinity s' | S754_finite s' _ _ => s' = s
  | S754_nan => False
  end.

(** The ten labels the classifier can give. *)
Definition all_categories : list string :=
  [ "IMP. LEY 25.413 - DÉBITOS";
    "IMP. LEY 25.413 - CRÉDITOS";
    "IMP. LEY 25.413";
    "SIRCREB";
    "IVA 21%";
    "IVA PERCEPCIÓN";
    "COMISIÓN CUENTA";
    "PAGO HABERES";
    "DEPÓSITO EFECTIVO";
    "OTROS" ].

(** A day that exists, in the years a two-digit year can mean. *)
Definition valid_date (ts : Timestamp) : Prop :=
  1969 <= year ts <= 2068
  /\ 1 <= month ts <= 12
  /\ 1 <= day ts <= days_in_month (year ts) (month ts).

(** The text [d1 d2 / m1 m2 / y1 y2] followed by [rest]. *)
Definition date_text (d1 d2 m1 m2 y1 y2 : ascii) (rest : string) : string :=
  String d1 (String d2 (String "/" (String m1 (String m2
    (String "/" (String y1 (String y2 rest))))))).

Definition two_digit_value (a b : ascii) : Z :=
  10 * digit_value a + digit_value b.

(** The readings of a text as [%d/%m/%y], in the order the matcher
    tries them. *)
Definition dmy_readings (s : string) : list (Z * Z * Z * string) :=
  flat_map (fun '(d, r1) =>
    flat_map (fun r2 =>
      flat_map (fun '(m, r3) =>
        flat_map (fun r4 =>
          map (fun '(y, r5) => (d, m, y, r5)) (directive_y r4))
          (literal "/" r3))
        (directive_m r2))
      (literal "/" r1))
    (directive_d s).

(** A debit or credit cell of a well-formed statement: blank, or an
    amount without a sign. *)
Definition unsigned_amount_cell (txt : string) : Prop :=
  strip txt = EmptyString
  \/ exists w dec,
      txt = amount_text false w dec
      /\ all_chars is_amount_char w = true
      /\ all_chars is_digit (or_empty dec) = true
      /\ digits_of w <> EmptyString.

(** The joined header of a table, as the test on it reads it. *)
Definition header_join (tb : table) : string :=
  join " " (map (fun c => lower (strip (or_empty c))) (hd [] tb)).


(** What [direction] gives, whatever the parsed amounts are. *)
Definition amounts_consistent (t : Transaction) : Prop :=
  In (tipo t) ["DEBITO"; "CREDITO"; EmptyString]
  /\ is_nan (importe_raw t) = false
  /\ is_nan (importe t) = false
  /\ abs (importe t) = abs (importe_raw t)
  /\ (tipo t = EmptyString <-> importe_raw t = zero).

(** A row has the given [tipo]. *)
Definition tipo_is (tp : string) (t : Transaction) : bool :=
  String.eqb (tipo t) tp.

(** [df_mov.loc[df_mov["tipo"] == "DEBITO", "importe_raw"].sum()] and the
    same for the credits. *)
Definition total_debitos (df : DataFrame) : float :=
  series_sum (map importe_raw (filter (tipo_is "DEBITO") df)).

Definition total_creditos (df : DataFrame) : float :=
  series_sum (map importe_raw (filter (tipo_is "CREDITO") df)).

(** What the page shows for an uploaded statement: the notice that no
    movement was found, or the ledger with its balances, totals and tax
    summary and the names of the sheets written to the workbook. *)
Inductive Pantalla : Type :=
| SinMovimientos
| Informe (df_mov : DataFrame) (saldos : float * float)
          (totales : float * float) (df_imp : list (string * float))
          (hojas : list string).

Definition informe (pdf : list (list table)) : Pantalla :=
  let df_mov := parse_santander_pdf pdf in
  match df_mov with
  | [] => SinMovimientos
  | _ =>
      let df_imp := construir_resumen_impositivo df_mov in
      Informe df_mov (calcular_saldos df_mov)
              (total_debitos df_mov, total_creditos df_mov)
              df_imp
              ("Movimientos"
               :: match df_imp with
                  | [] => []
                  | _ => ["Resumen_impositivo"]
                  end)
  end.

Definition hojas_de (p : Pantalla) : list string :=
  match p with
  | SinMovimientos => []
  | Informe _ _ _ _ hojas => hojas
  end.

(** * Properties *)

(** ** The amount normaliser *)






(** ** The description classifier *)

Lemma clasificar_ley_25413 (desc : string) :
  mentions_ley_25413 desc = true ->
  _clasificar_movimiento (Some desc) =
    if mentions "debito" desc then "IMP. LEY 25.413 - DÉBITOS"
    else if mentions "credito" desc then "IMP. LEY 25.413 - CRÉDITOS"
    else "IMP. LEY 25.413".
Proof.
  unfold mentions_ley_25413, mentions, _clasificar_movimiento.
  cbn [or_empty]. intros ->. reflexivity.
Qed.

(** C5: the rules are tried in order and the first match wins.  A
    description with the marker of law 25.413 and the qualifier [debito]
    is put in the category of the debits, never in the bare category of
    the law; [None] and the empty description are put in [OTROS]. *)
Theorem clasificar_first_match_wins :
  (forall desc : string,
      mentions_ley_25413 desc = true ->
      mentions "debito" desc = true ->
      _clasificar_movimiento (Some desc) = "IMP. LEY 25.413 - DÉBITOS"
      /\ _clasificar_movimiento (Some desc) <> "IMP. LEY 25.413")
  /\ _clasificar_movimiento None = "OTROS"
  /\ _clasificar_movimiento (Some EmptyString) = "OTROS".
Proof.
  split; [|split; reflexivity].
  intros desc Hley Hdeb.
  rewrite (clasificar_ley_25413 desc Hley), Hdeb.
  split; [reflexivity|discriminate].
Qed.

Lemma clasificar_first_match_wins_witness :
  _clasificar_movimiento (Some "Impuesto Ley 25.413 Debito s/Credito")
  = "IMP. LEY 25.413 - DÉBITOS".
Proof.
  apply (proj1 clasificar_first_match_wins); vm_compute; reflexivity.
Defined.




(** ** Accepting rows *)


Lemma pad_to_six_cons (x : string) (l : list string) :
  exists c2 c3 c4 c5 c6 more,
    pad_to_six (x :: l) = x :: c2 :: c3 :: c4 :: c5 :: c6 :: more.
Proof.
  destruct l as [|c2 [|c3 [|c4 [|c5 [|c6 more]]]]]; repeat eexists; reflexivity.
Qed.

Lemma strip_empty : strip EmptyString = EmptyString.
Proof. reflexivity. Qed.

(** A row with a date at the start of its first cell has a cell that is
    not empty, so the guard on empty rows never hides it. *)
Lemma any_cell_of_date (raw_row : list cell) :
  re_match fecha_re (date_field raw_row) = true -> any_cell raw_row = true.
Proof.
  unfold date_field. destruct raw_row as [|[s|] rest]; cbn [hd or_empty].
  - rewrite strip_empty. discriminate.
  - destruct s as [|a s]; [rewrite strip_empty; discriminate|reflexivity].
  - rewrite strip_empty. discriminate.
Qed.

Lemma read_row_accepts (raw_row : list cell) :
  (exists r, read_row raw_row = Some r)
  <-> re_match fecha_re (date_field raw_row) = true.
Proof.
  split.
  - intros [r Hr]. unfold read_row in Hr.
    destruct (any_cell raw_row) eqn:Hany; [|discriminate].
    destruct raw_row as [|c rest]; [discriminate|].
    cbn [negb map] in Hr.
    destruct (pad_to_six_cons (strip (or_empty c))
                (map (fun c => strip (or_empty c)) rest))
      as (c2 & c3 & c4 & c5 & c6 & more & Hpad).
    rewrite Hpad in Hr. unfold date_field. cbn [hd].
    destruct (re_match fecha_re (strip (or_empty c))); [reflexivity|discriminate].
  - intros Hre. pose proof (any_cell_of_date raw_row Hre) as Hany.
    unfold read_row. rewrite Hany. cbn [negb].
    destruct raw_row as [|c rest]; [discriminate|].
    cbn [map].
    destruct (pad_to_six_cons (strip (or_empty c))
                (map (fun c => strip (or_empty c)) rest))
      as (c2 & c3 & c4 & c5 & c6 & more & Hpad).
    rewrite Hpad. unfold date_field in Hre. cbn [hd] in Hre. rewrite Hre.
    cbn [negb]. destruct (direction _ _) as [[tp raw] imp]. eexists; reflexivity.
Qed.


Lemma read_row_rejects (raw_row : list cell) :
  re_match fecha_re (date_field raw_row) = false -> read_row raw_row = None.
Proof.
  intros Hre. destruct (read_row raw_row) as [r|] eqn:E; [|reflexivity].
  assert (H : exists r, read_row raw_row = Some r) by (now exists r).
  apply read_row_accepts in H. congruence.
Qed.



(** ** Cells beyond the sixth *)

(** C9: only the first six cells of a row decide what is built from it.
    A row of six cells followed by any further cells gives the same
    result, accepted or not, field by field, as the six cells alone. *)
Theorem cells_beyond_sixth_ignored (six extra : list cell) :
  List.length six = 6%nat ->
  build_row (six ++ extra) = build_row six
  /\ read_row (six ++ extra) = read_row six.
Proof.
  intros Hlen.
  destruct six as [|a [|b [|c [|d [|e [|f [|g six]]]]]]]; try discriminate Hlen.
  clear Hlen.
  assert (H : read_row ([a; b; c; d; e; f] ++ extra) = read_row [a; b; c; d; e; f]).
  { destruct (re_match fecha_re (date_field [a; b; c; d; e; f])) eqn:Hre.
    - unfold read_row.
      rewrite (any_cell_of_date ([a; b; c; d; e; f] ++ extra) Hre).
      rewrite (any_cell_of_date [a; b; c; d; e; f] Hre).
      reflexivity.
    - rewrite (read_row_rejects [a; b; c; d; e; f] Hre).
      now apply read_row_rejects. }
  split; [unfold build_row; now rewrite H|exact H].
Qed.

Lemma cells_beyond_sixth_ignored_witness :
  build_row ([Some "01/03/24"; Some "7"; Some "Pago haberes"; Some "10,00";
              None; Some "90,00"] ++ [Some "nota"; None; Some "1,00"])
  = build_row [Some "01/03/24"; Some "7"; Some "Pago haberes"; Some "10,00";
               None; Some "90,00"].
Proof.
  apply (cells_beyond_sixth_ignored
           [Some "01/03/24"; Some "7"; Some "Pago haberes"; Some "10,00";
            None; Some "90,00"]
           [Some "nota"; None; Some "1,00"]).
  reflexivity.
Defined.

(** ** Direction and signed amount *)

(** When the parsed debit and credit are not negative, the direction and
    the sign of the amount agree: a debit gives a negative amount, a
    credit a positive one, neither gives zero. *)
Lemma direction_of_nonnegative (deb cred : float) :
  ge deb zero = true -> ge cred zero = true ->
  (direction deb cred = ("DEBITO", deb, neg deb)
   /\ gt deb zero = true /\ lt (neg deb) zero = true)
  \/ (direction deb cred = ("CREDITO", cred, cred)
      /\ gt deb zero = false /\ gt cred zero = true)
  \/ (direction deb cred = (EmptyString, zero, zero)
      /\ gt deb zero = false /\ gt cred zero = false).
Proof.
  unfold direction, ge, gt, lt, neg, abs, zero.
  destruct deb as [[|]|[|]| |[|] md ed]; cbn; try discriminate; intros _;
    destruct cred as [[|]|[|]| |[|] mc ec]; cbn; try discriminate; intros _;
    auto.
Qed.

(** C4 fails on the code for a debit cell with a minus sign.  The guard
    [abs(deb) > 0] lets the negative debit through as a debit, and the
    amounts are then taken without [abs]: the row is a [DEBITO] whose
    debit and [importe_raw] are negative and whose signed amount is
    positive. *)
Theorem negative_debit_row :
  exists t,
    build_row [Some "01/03/24"; Some "123"; Some "Pago"; Some "-5,00";
               Some EmptyString; Some "100,00"] = Some t
    /\ tipo t = "DEBITO"
    /\ debito t = neg (of_Z 5) /\ lt (debito t) zero = true
    /\ importe_raw t = neg (of_Z 5) /\ lt (importe_raw t) zero = true
    /\ importe t = of_Z 5 /\ gt (importe t) zero = true.
Proof. eexists. vm_compute. repeat split. Qed.

(** ** Opening and closing balance *)




(** ** Comparisons that are total orders *)

Section TotalOrderFacts.
Context {K : Type} (cmp : K -> K -> comparison).
Hypothesis Hord : total_order cmp.

Lemma order_refl (x : K) : cmp x x = Eq.
Proof. now apply (order_eq cmp Hord). Qed.

Lemma order_gt_lt (x y : K) : cmp x y = Gt -> cmp y x = Lt.
Proof. intros H. rewrite (order_antisym cmp Hord x y), H. reflexivity. Qed.

Lemma order_le_trans (x y z : K) :
  cmp x y <> Gt -> cmp y z <> Gt -> cmp x z <> Gt.
Proof.
  intros Hxy Hyz.
  destruct (cmp x y) eqn:Exy; [| |congruence].
  - apply (order_eq cmp Hord) in Exy. now subst.
  - destruct (cmp y z) eqn:Eyz; [| |congruence].
    + apply (order_eq cmp Hord) in Eyz. subst. congruence.
    + rewrite (order_trans cmp Hord x y z Exy Eyz). discriminate.
Qed.

Lemma order_le_total (x y : K) : cmp x y = Gt -> cmp y x <> Gt.
Proof. intros H. rewrite (order_gt_lt x y H). discriminate. Qed.
End TotalOrderFacts.

Lemma total_order_Z : total_order Z.compare.
Proof.
  split.
  - intros x y. apply Z.compare_eq_iff.
  - intros x y. apply Z.compare_antisym.
  - intros x y z. rewrite !Z.compare_lt_iff. lia.
Qed.

Lemma total_order_lex {K1 K2 : Type} (c1 : K1 -> K1 -> comparison)
      (c2 : K2 -> K2 -> comparison) :
  total_order c1 -> total_order c2 -> total_order (lex c1 c2).
Proof.
  intros H1 H2. split.
  - intros [a1 a2] [b1 b2]. unfold lex. cbn [fst snd]. split.
    + destruct (c1 a1 b1) eqn:E1; try discriminate.
      intros E2. apply (order_eq c1 H1) in E1. apply (order_eq c2 H2) in E2.
      now subst.
    + intros [= -> ->]. rewrite (order_refl c1 H1). apply (order_refl c2 H2).
  - intros [a1 a2] [b1 b2]. unfold lex. cbn [fst snd].
    rewrite (order_antisym c1 H1 a1 b1), (order_antisym c2 H2 a2 b2).
    destruct (c1 a1 b1); reflexivity.
  - intros [a1 a2] [b1 b2] [d1 d2]. unfold lex. cbn [fst snd].
    destruct (c1 a1 b1) eqn:E1; try discriminate.
    + apply (order_eq c1 H1) in E1. subst b1.
      destruct (c1 a1 d1); try discriminate; [|reflexivity].
      apply (order_trans c2 H2).
    + intros _. destruct (c1 b1 d1) eqn:E2; try discriminate.
      * apply (order_eq c1 H1) in E2. subst d1. now rewrite E1.
      * now rewrite (order_trans c1 H1 _ _ _ E1 E2).
Qed.

Lemma total_order_missing_last {K : Type} (c : K -> K -> comparison) :
  total_order c -> total_order (missing_last c).
Proof.
  intros H. split.
  - intros [x|] [y|]; cbn; split; try discriminate; try reflexivity.
    + intros E. apply (order_eq c H) in E. now subst.
    + intros [= ->]. apply (order_refl c H).
  - intros [x|] [y|]; cbn; try reflexivity. apply (order_antisym c H).
  - intros [x|] [y|] [z|]; cbn; try discriminate; try reflexivity.
    apply (order_trans c H).
Qed.

Lemma total_order_image {K L : Type} (f : L -> K) (c : K -> K -> comparison) :
  (forall x y, f x = f y -> x = y) ->
  total_order c -> total_order (fun x y => c (f x) (f y)).
Proof.
  intros Hinj H. split.
  - intros x y. rewrite (order_eq c H). split; [apply Hinj|now intros ->].
  - intros x y. apply (order_antisym c H).
  - intros x y z. apply (order_trans c H).
Qed.

Lemma code_inj (a b : ascii) : code a = code b -> a = b.
Proof.
  unfold code. intros H.
  rewrite <- (ascii_N_embedding a), <- (ascii_N_embedding b). now rewrite H.
Qed.

Lemma total_order_str : total_order PyStr.compare.
Proof.
  split.
  - intros s. induction s as [|a s IH]; intros [|b t]; cbn;
      split; try discriminate; try reflexivity.
    + destruct (N.compare (code a) (code b)) eqn:E; try discriminate.
      intros Hst. apply N.compare_eq_iff, code_inj in E. apply IH in Hst.
      now subst.
    + intros [= -> ->]. rewrite N.compare_refl. now apply IH.
  - intros s. induction s as [|a s IH]; intros [|b t]; cbn; try reflexivity.
    rewrite (N.compare_antisym (code a) (code b)).
    destruct (N.compare (code a) (code b)); cbn; [apply IH|reflexivity|reflexivity].
  - intros s. induction s as [|a s IH]; intros [|b t] [|d u]; cbn;
      try discriminate; try reflexivity.
    destruct (N.compare (code a) (code b)) eqn:E1; try discriminate.
    + apply N.compare_eq_iff in E1. rewrite E1.
      destruct (N.compare (code b) (code d)); try discriminate; [|reflexivity].
      apply IH.
    + intros _. destruct (N.compare (code b) (code d)) eqn:E2; try discriminate.
      * apply N.compare_eq_iff in E2. rewrite <- E2, E1. reflexivity.
      * intros _. apply N.compare_lt_iff in E1. apply N.compare_lt_iff in E2.
        rewrite (proj2 (N.compare_lt_iff (code a) (code d))
                   (N.lt_trans _ _ _ E1 E2)).
        reflexivity.
Qed.

Lemma total_order_timestamp : total_order timestamp_compare.
Proof.
  pose proof (total_order_image
                (fun t => (year t, (month t, day t)))
                (lex Z.compare (lex Z.compare Z.compare))) as H.
  apply H.
  - intros [y1 m1 d1] [y2 m2 d2]. cbn. now intros [= -> -> ->].
  - apply total_order_lex; [|apply total_order_lex]; apply total_order_Z.
Qed.

Lemma total_order_fecha : total_order fecha_compare.
Proof. exact (total_order_missing_last timestamp_compare total_order_timestamp). Qed.

Lemma total_order_key : total_order (lex fecha_compare PyStr.compare).
Proof. apply total_order_lex; [apply total_order_fecha|apply total_order_str]. Qed.

Lemma key_compare_lex (a b : Transaction) :
  key_compare a b = lex fecha_compare PyStr.compare (sort_key a) (sort_key b).
Proof. reflexivity. Qed.

(** ** The stable sort *)

Section StableSortFacts.
Context {A : Type} (cmp : A -> A -> comparison).

Lemma le_by_true (x y : A) : le_by cmp x y = true <-> cmp x y <> Gt.
Proof. unfold le_by. destruct (cmp x y); split; congruence. Qed.

Lemma le_by_false (x y : A) : le_by cmp x y = false <-> cmp x y = Gt.
Proof. unfold le_by. destruct (cmp x y); split; congruence. Qed.

Lemma insert_by_perm (x : A) (l : list A) :
  Permutation (x :: l) (insert_by cmp x l).
Proof.
  induction l as [|y l IH]; cbn; [reflexivity|].
  destruct (le_by cmp x y); [reflexivity|].
  etransitivity; [apply perm_swap|]. now apply perm_skip.
Qed.

Lemma stable_sort_perm (l : list A) : Permutation l (stable_sort cmp l).
Proof.
  induction l as [|x l IH]; cbn; [reflexivity|].
  etransitivity; [apply perm_skip, IH|]. apply insert_by_perm.
Qed.

(** Inserting [x] only moves it past rows that compare smaller, so the
    rows a predicate selects keep their order when the predicate never
    selects [x] together with a smaller row. *)
Lemma filter_insert_by (p : A -> bool) (x : A) (l : list A) :
  (forall y, p x = true -> cmp x y = Gt -> p y = false) ->
  filter p (insert_by cmp x l) = filter p (x :: l).
Proof.
  intros Hp. induction l as [|y l IH]; [reflexivity|].
  cbn [insert_by]. destruct (le_by cmp x y) eqn:E; [reflexivity|].
  apply le_by_false in E. cbn [filter] in *. rewrite IH.
  destruct (p x) eqn:Ex; [|reflexivity].
  now rewrite (Hp y eq_refl E).
Qed.

Lemma filter_stable_sort (p : A -> bool) (l : list A) :
  (forall x y, p x = true -> cmp x y = Gt -> p y = false) ->
  filter p (stable_sort cmp l) = filter p l.
Proof.
  intros Hp. induction l as [|x l IH]; [reflexivity|].
  cbn [stable_sort]. rewrite filter_insert_by by (apply Hp).
  cbn [filter]. now rewrite IH.
Qed.

Lemma stable_sort_map {B : Type} (g : B -> A) (l : list B) :
  stable_sort cmp (map g l)
  = map g (stable_sort (fun x y => cmp (g x) (g y)) l).
Proof.
  induction l as [|x l IH]; [reflexivity|].
  cbn [map stable_sort]. rewrite IH.
  generalize (stable_sort (fun x y => cmp (g x) (g y)) l). intros m.
  induction m as [|y m IHm]; [reflexivity|].
  cbn [map insert_by]. unfold le_by.
  destruct (cmp (g x) (g y)); cbn [map]; try reflexivity. now rewrite IHm.
Qed.

Hypothesis cmp_total : forall x y, cmp x y = Gt -> cmp y x <> Gt.
Hypothesis cmp_trans :
  forall x y z, cmp x y <> Gt -> cmp y z <> Gt -> cmp x z <> Gt.

Lemma insert_by_sorted (x : A) (l : list A) :
  StronglySorted (fun a b => cmp a b <> Gt) l ->
  StronglySorted (fun a b => cmp a b <> Gt) (insert_by cmp x l).
Proof.
  induction 1 as [|y l Hs IH Hy]; cbn [insert_by].
  - repeat constructor.
  - destruct (le_by cmp x y) eqn:E.
    + apply le_by_true in E. constructor; [now constructor|].
      constructor; [exact E|].
      eapply Forall_impl; [|exact Hy]. intros z Hz. now apply (cmp_trans x y z).
    + apply le_by_false in E. constructor; [exact IH|].
      eapply Permutation_Forall; [apply insert_by_perm|].
      constructor; [now apply cmp_total|exact Hy].
Qed.

Lemma stable_sort_sorted (l : list A) :
  StronglySorted (fun a b => cmp a b <> Gt) (stable_sort cmp l).
Proof.
  induction l as [|x l IH]; cbn [stable_sort]; [constructor|].
  now apply insert_by_sorted.
Qed.
End StableSortFacts.

(** ** The order of the ledger *)

Lemma key_le_compare (a b : Transaction) :
  key_le a b <-> key_compare a b <> Gt.
Proof.
  unfold key_le, key_compare.
  destruct (fecha_compare (fecha a) (fecha b)) eqn:E.
  - apply (order_eq _ total_order_fecha) in E. split.
    + intros [H|[_ H]]; [discriminate|exact H].
    + intros H. right. now split.
  - split; [discriminate|now left].
  - split; [|congruence]. intros [H|[H _]]; [discriminate|].
    apply (order_eq _ total_order_fecha) in H. congruence.
Qed.

Lemma parse_santander_pdf_sorted (pdf : list (list table)) :
  parse_santander_pdf pdf = sort_values (map complete (extract_rows pdf)).
Proof.
  unfold parse_santander_pdf. now destruct (extract_rows pdf).
Qed.

Lemma StronglySorted_weaken {A : Type} (R R' : A -> A -> Prop) (l : list A) :
  (forall a b, R a b -> R' a b) -> StronglySorted R l -> StronglySorted R' l.
Proof.
  intros HR. induction 1 as [|a l Hs IH Ha]; constructor; [exact IH|].
  eapply Forall_impl; [|exact Ha]. intros b. apply HR.
Qed.

Lemma sort_values_sorted (df : DataFrame) :
  StronglySorted key_le (sort_values df).
Proof.
  eapply StronglySorted_weaken;
    [|apply (stable_sort_sorted key_compare)].
  - intros a b. apply key_le_compare.
  - intros x y. rewrite !key_compare_lex. apply (order_le_total _ total_order_key).
  - intros x y z. rewrite !key_compare_lex. apply (order_le_trans _ total_order_key).
Qed.

(** In a list sorted by the key, the rows with a date come first and the
    rows without one last. *)
Lemma sorted_dated_then_undated (df : DataFrame) :
  StronglySorted key_le df ->
  exists dated undated,
    df = (dated ++ undated)%list
    /\ Forall (fun t => fecha t <> None) dated
    /\ Forall (fun t => fecha t = None) undated.
Proof.
  induction 1 as [|a l Hs IH Ha].
  - exists [], []. repeat split; constructor.
  - destruct (fecha a) as [d|] eqn:Ea.
    + destruct IH as (dated & undated & -> & Hd & Hu).
      exists (a :: dated), undated. repeat split; [|exact Hu].
      constructor; [congruence|exact Hd].
    + exists [], (a :: l). repeat split; [constructor|].
      constructor; [exact Ea|].
      eapply Forall_impl; [|exact Ha]. intros b [H|[H _]].
      * rewrite Ea in H. destruct (fecha b); [discriminate|reflexivity].
      * congruence.
Qed.

(** C2, as stated, fails: [sort_values] is called with [na_position] left
    at its default, so a row whose date did not parse is placed after the
    rows with a date.  The row dated [31/02/99] (no such day) comes first
    in the table and last in the ledger. *)
Lemma undated_row_sorts_last :
  exists a b,
    parse_santander_pdf
      [[ [ [Some "Fecha"; Some "Comprobante"; Some "Movimiento";
            Some "Débito"; Some "Crédito"; Some "Saldo"];
           [Some "31/02/99"; Some "1"; Some "Pago"; Some "10,00";
            Some EmptyString; Some "90,00"];
           [Some "01/03/24"; Some "2"; Some "Pago"; Some "10,00";
            Some EmptyString; Some "80,00"] ] ]]
    = [a; b]
    /\ fecha_str a = "01/03/24"
    /\ fecha a = Some {| year := 2024; month := 3; day := 1 |}
    /\ fecha_str b = "31/02/99"
    /\ fecha b = None.
Proof. do 2 eexists. vm_compute. repeat split. Qed.

(** C2, amended: the ledger holds the built transactions, sorted by date
    ascending and then reference ascending, and the transactions whose
    date failed to parse sort as the latest possible value: they come
    after all the transactions with a date. *)
Theorem ledger_sorted_undated_last (pdf : list (list table)) :
  Permutation (map complete (extract_rows pdf)) (parse_santander_pdf pdf)
  /\ StronglySorted key_le (parse_santander_pdf pdf)
  /\ exists dated undated,
      parse_santander_pdf pdf = (dated ++ undated)%list
      /\ Forall (fun t => fecha t <> None) dated
      /\ Forall (fun t => fecha t = None) undated.
Proof.
  rewrite parse_santander_pdf_sorted. split; [|split].
  - apply stable_sort_perm.
  - apply sort_values_sorted.
  - apply sorted_dated_then_undated, sort_values_sorted.
Qed.

(** ** Stability *)

Lemma fecha_eqb_eq (a b : option Timestamp) : fecha_eqb a b = true <-> a = b.
Proof.
  destruct a as [[y1 m1 d1]|], b as [[y2 m2 d2]|]; cbn;
    split; try discriminate; try reflexivity.
  - unfold timestamp_eqb. cbn. rewrite !andb_true_iff, !Z.eqb_eq.
    now intros [[-> ->] ->].
  - intros [= -> -> ->]. unfold timestamp_eqb. cbn. now rewrite !Z.eqb_refl.
Qed.

Lemma same_key_eq (a b : Transaction) :
  same_key a b = true <-> sort_key a = sort_key b.
Proof.
  unfold same_key, sort_key.
  rewrite andb_true_iff, fecha_eqb_eq, String.eqb_eq.
  split; [now intros [-> ->]|now intros [= -> ->]].
Qed.

(** C3: the sort of the ledger is stable.  For any key [(fecha,
    comprobante)], given by a row [k], the transactions with that key
    stand in the ledger in the order in which they were extracted from
    the document. *)
Theorem ledger_sort_stable (pdf : list (list table)) (k : Transaction) :
  filter (same_key k) (parse_santander_pdf pdf)
  = filter (same_key k) (map complete (extract_rows pdf)).
Proof.
  rewrite parse_santander_pdf_sorted. apply filter_stable_sort.
  intros x y Hx Hgt.
  destruct (same_key k y) eqn:Hy; [|reflexivity].
  apply same_key_eq in Hx, Hy.
  rewrite key_compare_lex, <- Hx, Hy, (order_refl _ total_order_key) in Hgt.
  discriminate.
Qed.

(** ** The tax summary *)

(** Two lists in strictly increasing order of a rank hold the same
    elements only if they are equal. *)
Lemma strictly_sorted_unique {A : Type} (rank : A -> Z) (l1 l2 : list A) :
  StronglySorted (fun a b => rank a < rank b) l1 ->
  StronglySorted (fun a b => rank a < rank b) l2 ->
  (forall x, In x l1 <-> In x l2) ->
  l1 = l2.
Proof.
  intros H1. revert l2.
  induction H1 as [|a l1 Hs1 IH Ha]; intros l2 H2 Hin.
  - destruct l2 as [|b l2]; [reflexivity|].
    destruct (proj2 (Hin b) (or_introl eq_refl)).
  - destruct H2 as [|b l2 Hs2 Hb].
    + destruct (proj1 (Hin a) (or_introl eq_refl)).
    + rewrite Forall_forall in Ha, Hb.
      assert (Hab : a = b).
      { destruct (proj1 (Hin a) (or_introl eq_refl)) as [E|Ea]; [now symmetry|].
        destruct (proj2 (Hin b) (or_introl eq_refl)) as [E|Eb]; [exact E|].
        specialize (Ha b Eb). specialize (Hb a Ea). lia. }
      subst b. f_equal. apply IH; [exact Hs2|].
      intros x. split; intros Hx.
      * destruct (proj1 (Hin x) (or_intror Hx)) as [E|Ex]; [|exact Ex].
        subst x. specialize (Ha a Hx). lia.
      * destruct (proj2 (Hin x) (or_intror Hx)) as [E|Ex]; [|exact Ex].
        subst x. specialize (Hb a Hx). lia.
Qed.

Lemma StronglySorted_filter {A : Type} (R : A -> A -> Prop) (p : A -> bool)
      (l : list A) :
  StronglySorted R l -> StronglySorted R (filter p l).
Proof.
  induction 1 as [|a l Hs IH Ha]; cbn; [constructor|].
  destruct (p a); [|exact IH].
  constructor; [exact IH|].
  rewrite Forall_forall in *. intros x Hx. apply Ha.
  now apply filter_In in Hx.
Qed.

(** Sorted by a rank that tells the elements of a duplicate-free list
    apart is strictly sorted. *)
Lemma sorted_strictly {A : Type} (rank : A -> Z) (l : list A) :
  StronglySorted (fun a b => Z.compare (rank a) (rank b) <> Gt) l ->
  NoDup l ->
  (forall a b, In a l -> In b l -> rank a = rank b -> a = b) ->
  StronglySorted (fun a b => rank a < rank b) l.
Proof.
  induction 1 as [|a l Hs IH Ha]; intros Hnd Hinj; [constructor|].
  inversion Hnd as [|? ? Hnotin Hnd']; subst.
  constructor.
  - apply IH; [exact Hnd'|]. intros x y Hx Hy. apply Hinj; now right.
  - rewrite Forall_forall in *. intros b Hb.
    specialize (Ha b Hb). rewrite Z.compare_gt_iff in Ha.
    assert (rank a <> rank b); [|lia].
    intros E. apply Hnotin.
    now rewrite (Hinj a b (or_introl eq_refl) (or_intror Hb) E).
Qed.

(** *** The group keys *)

Lemma insert_key_In (x k : string) (keys : list string) :
  In x (insert_key k keys) <-> x = k \/ In x keys.
Proof.
  induction keys as [|k' keys IH]; cbn; [intuition|].
  destruct (PyStr.compare k k') eqn:E; cbn.
  - apply (order_eq _ total_order_str) in E. subst. intuition.
  - intuition.
  - rewrite IH. intuition.
Qed.

Lemma insert_key_sorted (k : string) (keys : list string) :
  StronglySorted str_lt keys -> StronglySorted str_lt (insert_key k keys).
Proof.
  induction 1 as [|k' keys Hs IH Hk]; cbn [insert_key].
  - repeat constructor.
  - destruct (PyStr.compare k k') eqn:E.
    + now constructor.
    + constructor; [now constructor|]. constructor; [exact E|].
      eapply Forall_impl; [|exact Hk]. intros z Hz.
      exact (order_trans _ total_order_str k k' z E Hz).
    + constructor; [exact IH|].
      rewrite Forall_forall in *. intros z Hz.
      apply insert_key_In in Hz. destruct Hz as [->|Hz]; [|now apply Hk].
      exact (order_gt_lt _ total_order_str k k' E).
Qed.

Lemma group_keys_sorted (df : DataFrame) : StronglySorted str_lt (group_keys df).
Proof.
  unfold group_keys. induction (map categoria df) as [|c l IH]; cbn.
  - constructor.
  - now apply insert_key_sorted.
Qed.

Lemma group_keys_In (x : string) (df : DataFrame) :
  In x (group_keys df) <-> In x (map categoria df).
Proof.
  unfold group_keys. induction (map categoria df) as [|c l IH]; cbn.
  - reflexivity.
  - rewrite insert_key_In, IH. intuition.
Qed.

Lemma group_keys_NoDup (df : DataFrame) : NoDup (group_keys df).
Proof.
  induction (group_keys_sorted df) as [|k keys Hs IH Hk]; constructor.
  - intros Hin. rewrite Forall_forall in Hk. specialize (Hk k Hin).
    unfold str_lt in Hk. rewrite (order_refl _ total_order_str) in Hk.
    discriminate.
  - exact IH.
Qed.

(** *** The declared order *)

Lemma isin_In (x : string) (l : list string) : isin x l = true <-> In x l.
Proof.
  unfold isin. rewrite existsb_exists. split.
  - intros (y & Hy & E). apply String.eqb_eq in E. now subst.
  - intros H. exists x. split; [exact H|apply String.eqb_refl].
Qed.

Lemma index_of_nth (x : string) (l : list string) (i : nat) :
  index_of x l = Some i -> nth_error l i = Some x.
Proof.
  revert i. induction l as [|y l IH]; intros i; cbn; [discriminate|].
  destruct (String.eqb x y) eqn:E.
  - apply String.eqb_eq in E. subst. now intros [= <-].
  - destruct (index_of x l) as [j|]; [|discriminate].
    intros [= <-]. now apply IH.
Qed.

Lemma index_of_In (x : string) (l : list string) :
  In x l -> exists i, index_of x l = Some i.
Proof.
  induction l as [|y l IH]; cbn; [intros []|].
  intros H. destruct (String.eqb x y) eqn:E; [now exists O|].
  destruct H as [->|H]; [now rewrite String.eqb_refl in E|].
  destruct (IH H) as [i ->]. now exists (S i).
Qed.

Lemma orden_inj (a b : string) :
  In a categorias_interes -> In b categorias_interes ->
  orden a = orden b -> a = b.
Proof.
  intros Ha Hb. unfold orden.
  destruct (index_of_In a _ Ha) as [i Ei], (index_of_In b _ Hb) as [j Ej].
  rewrite Ei, Ej. intros E. apply Nat2Z.inj in E. subst j.
  apply index_of_nth in Ei, Ej. congruence.
Qed.

Lemma categorias_interes_sorted :
  StronglySorted (fun a b => orden a < orden b) categorias_interes.
Proof.
  unfold categorias_interes.
  repeat (constructor; [|repeat (constructor; [reflexivity|]); constructor]).
  constructor.
Qed.

(** *** The summary *)

Lemma filter_filter_implied {A : Type} (p q : A -> bool) (l : list A) :
  (forall x, p x = true -> q x = true) ->
  filter p (filter q l) = filter p l.
Proof.
  intros H. induction l as [|x l IH]; [reflexivity|].
  cbn. destruct (q x) eqn:Eq; cbn; rewrite IH; [reflexivity|].
  destruct (p x) eqn:Ep; [|reflexivity].
  rewrite (H x Ep) in Eq. discriminate.
Qed.

Lemma summary_entry_tax_rows (df : DataFrame) (c : string) :
  In c categorias_interes ->
  summary_entry (tax_rows df) c = summary_entry df c.
Proof.
  intros Hc. unfold summary_entry, rows_of, tax_rows.
  rewrite filter_filter_implied; [reflexivity|].
  intros t E. apply String.eqb_eq in E. subst c. now apply isin_In.
Qed.

Lemma construir_resumen_impositivo_unfold (df : DataFrame) :
  construir_resumen_impositivo df
  = stable_sort (fun a b => Z.compare (orden (fst a)) (orden (fst b)))
                (map (summary_entry (tax_rows df)) (group_keys (tax_rows df))).
Proof.
  unfold construir_resumen_impositivo. fold (tax_rows df).
  destruct df as [|t df]; [reflexivity|].
  destruct (tax_rows (t :: df)); reflexivity.
Qed.

Lemma occurs_In (df : DataFrame) (c : string) :
  occurs df c = true <-> In c (map categoria df).
Proof.
  unfold occurs. rewrite existsb_exists, in_map_iff. split.
  - intros (t & Ht & E). apply String.eqb_eq in E. now exists t.
  - intros (t & E & Ht). exists t. split; [exact Ht|now apply String.eqb_eq].
Qed.

Lemma tax_rows_keys (df : DataFrame) (c : string) :
  In c (map categoria (tax_rows df))
  <-> In c categorias_interes /\ In c (map categoria df).
Proof.
  unfold tax_rows. rewrite !in_map_iff. split.
  - intros (t & <- & Ht). apply filter_In in Ht. destruct Ht as [Ht Hc].
    split; [now apply isin_In|now exists t].
  - intros (Hc & t & <- & Ht). exists t. split; [reflexivity|].
    apply filter_In. split; [exact Ht|now apply isin_In].
Qed.

Lemma sorted_keys_in_declared_order (df : DataFrame) :
  stable_sort (fun a b => Z.compare (orden a) (orden b))
              (group_keys (tax_rows df))
  = filter (occurs df) categorias_interes.
Proof.
  set (cmp := fun a b : string => Z.compare (orden a) (orden b)).
  assert (Hmem : forall x, In x (stable_sort cmp (group_keys (tax_rows df)))
                           <-> In x categorias_interes /\ In x (map categoria df)).
  { intros x. rewrite <- tax_rows_keys, <- group_keys_In. split.
    - apply Permutation_in. symmetry. apply stable_sort_perm.
    - apply Permutation_in. apply stable_sort_perm. }
  apply (strictly_sorted_unique orden).
  - apply sorted_strictly.
    + apply (stable_sort_sorted cmp).
      * intros x y. apply (order_le_total _ total_order_Z).
      * intros x y z. apply (order_le_trans _ total_order_Z).
    + eapply Permutation_NoDup; [apply stable_sort_perm|apply group_keys_NoDup].
    + intros a b Ha Hb. apply orden_inj; [now apply Hmem|now apply Hmem].
  - apply StronglySorted_filter, categorias_interes_sorted.
  - intros x. rewrite Hmem, filter_In, occurs_In. reflexivity.
Qed.


(** ** A statement from end to end *)

Example sample_statement_report :
  map fecha_str (parse_santander_pdf sample_statement)
  = ["01/01/24"; "02/01/24"; "03/01/24"]
  /\ map importe (parse_santander_pdf sample_statement)
     = [zero; neg (of_Z 10); of_Z 500]
  /\ calcular_saldos (parse_santander_pdf sample_statement)
     = (of_Z 1000, of_Z 1490)
  /\ construir_resumen_impositivo (parse_santander_pdf sample_statement)
     = [("IMP. LEY 25.413 - DÉBITOS", of_Z 10)].
Proof. repeat split; vm_compute; reflexivity. Qed.

Example empty_document_report :
  parse_santander_pdf [] = []
  /\ calcular_saldos (parse_santander_pdf []) = (zero, zero)
  /\ construir_resumen_impositivo (parse_santander_pdf []) = [].
Proof. repeat split. Qed.

(** * Further properties *)

(** ** Texts of one-byte characters *)

Lemma digit_code (c : ascii) :
  is_digit c = true -> (48 <= code c /\ code c <= 57)%N.
Proof.
  unfold is_digit. rewrite andb_true_iff, !N.leb_le. tauto.
Qed.

Lemma plain_code (c : ascii) : is_plain c = true -> (code c < 128)%N.
Proof.
  unfold is_plain. rewrite !orb_true_iff, !Ascii.eqb_eq.
  intros [[[[[H | ->] | ->] | ->] | ->] | ->]; try (vm_compute; reflexivity).
  apply digit_code in H. lia.
Qed.

Lemma plain_space1 (c : ascii) :
  is_plain c = true -> space1 c = Ascii.eqb c " ".
Proof.
  unfold is_plain. rewrite !orb_true_iff, !Ascii.eqb_eq.
  intros [[[[[H | ->] | ->] | ->] | ->] | ->]; try reflexivity.
  apply digit_code in H.
  destruct (Ascii.eqb_spec c " ") as [E|_];
    [subst c; change (code " ") with 32%N in H; lia|].
  unfold space1. apply orb_false_iff.
  split; apply andb_false_iff; right; apply N.leb_gt; lia.
Qed.

Lemma space2_lead (a b : ascii) : (code a < 128)%N -> space2 a b = false.
Proof.
  intros H. unfold space2. apply andb_false_iff. left. apply N.eqb_neq. lia.
Qed.

Lemma space2_last (a b : ascii) : (code b < 128)%N -> space2 a b = false.
Proof.
  intros H. unfold space2. apply andb_false_iff. right.
  apply orb_false_iff. split; apply N.eqb_neq; lia.
Qed.

Lemma space3_lead (a b c : ascii) : (code a < 128)%N -> space3 a b c = false.
Proof.
  intros H. unfold space3.
  assert (E1 : (code a =? 225)%N = false) by (apply N.eqb_neq; lia).
  assert (E2 : (code a =? 226)%N = false) by (apply N.eqb_neq; lia).
  assert (E3 : (code a =? 227)%N = false) by (apply N.eqb_neq; lia).
  now rewrite E1, E2, E3.
Qed.

Lemma space3_last (a b c : ascii) : (code c < 128)%N -> space3 a b c = false.
Proof.
  intros H. unfold space3.
  assert (E1 : (code c =? 128)%N = false) by (apply N.eqb_neq; lia).
  assert (E2 : (128 <=? code c)%N = false) by (apply N.leb_gt; lia).
  assert (E3 : (code c =? 168)%N = false) by (apply N.eqb_neq; lia).
  assert (E4 : (code c =? 169)%N = false) by (apply N.eqb_neq; lia).
  assert (E5 : (code c =? 175)%N = false) by (apply N.eqb_neq; lia).
  assert (E6 : (code c =? 159)%N = false) by (apply N.eqb_neq; lia).
  rewrite E1, E2, E3, E4, E5, E6. cbn. now rewrite !andb_false_r.
Qed.

Lemma lstrip_plain (s : string) :
  all_chars is_plain s = true -> lstrip s = drop_blanks s.
Proof.
  induction s as [|a r IH]; [reflexivity|].
  cbn [all_chars]. rewrite andb_true_iff. intros [Ha Hr].
  cbn [lstrip drop_blanks]. rewrite (plain_space1 a Ha).
  destruct (Ascii.eqb a " "); [now apply IH|].
  pose proof (plain_code a Ha) as Hc.
  destruct r as [|b [|c r]]; [reflexivity| |].
  - now rewrite space2_lead.
  - now rewrite space2_lead, space3_lead.
Qed.

Lemma lstrip_rev_plain (s : string) :
  all_chars is_plain s = true -> lstrip_rev s = drop_blanks s.
Proof.
  induction s as [|a r IH]; [reflexivity|].
  cbn [all_chars]. rewrite andb_true_iff. intros [Ha Hr].
  cbn [lstrip_rev drop_blanks]. rewrite (plain_space1 a Ha).
  destruct (Ascii.eqb a " "); [now apply IH|].
  pose proof (plain_code a Ha) as Hc.
  destruct r as [|b [|c r]]; [reflexivity| |].
  - now rewrite space2_last.
  - now rewrite space2_last, space3_last.
Qed.

Lemma rev_onto_twice (s acc acc' : string) :
  rev_onto (rev_onto s acc) acc' = rev_onto acc (s ++ acc').
Proof.
  revert acc acc'. induction s as [|a s IH]; intros acc acc'; [reflexivity|].
  cbn [rev_onto]. rewrite IH. reflexivity.
Qed.

Lemma append_empty (s : string) : s ++ EmptyString = s.
Proof. induction s as [|a s IH]; [reflexivity|]. cbn. now rewrite IH. Qed.

Lemma rev_involutive (s : string) : rev (rev s) = s.
Proof. unfold rev. rewrite rev_onto_twice. apply append_empty. Qed.

Lemma all_chars_rev_onto (p : ascii -> bool) (s acc : string) :
  all_chars p (rev_onto s acc) = all_chars p s && all_chars p acc.
Proof.
  revert acc. induction s as [|a s IH]; intros acc; [reflexivity|].
  cbn [rev_onto all_chars]. rewrite IH. cbn [all_chars].
  destruct (p a), (all_chars p s); reflexivity.
Qed.

Lemma all_chars_rev (p : ascii -> bool) (s : string) :
  all_chars p (rev s) = all_chars p s.
Proof. unfold rev. rewrite all_chars_rev_onto. cbn. apply andb_true_r. Qed.

Lemma all_chars_app (p : ascii -> bool) (s t : string) :
  all_chars p (s ++ t) = all_chars p s && all_chars p t.
Proof.
  induction s as [|a s IH]; [reflexivity|].
  cbn. rewrite IH. apply andb_assoc.
Qed.

Lemma all_chars_impl (p q : ascii -> bool) (s : string) :
  (forall c, p c = true -> q c = true) ->
  all_chars p s = true -> all_chars q s = true.
Proof.
  intros H. induction s as [|a s IH]; [reflexivity|].
  cbn. rewrite !andb_true_iff. intros [Ha Hs]. split; [now apply H|now apply IH].
Qed.

Lemma all_chars_drop_blanks (p : ascii -> bool) (s : string) :
  all_chars p s = true -> all_chars p (drop_blanks s) = true.
Proof.
  induction s as [|a s IH]; [reflexivity|].
  cbn [drop_blanks]. destruct (Ascii.eqb a " "); [|trivial].
  cbn. rewrite andb_true_iff. intros [_ Hs]. now apply IH.
Qed.

Lemma clean_chars_rev_onto (s acc : string) :
  clean_chars (rev_onto s acc) = rev_onto (clean_chars s) (clean_chars acc).
Proof.
  revert acc. induction s as [|a s IH]; intros acc; [reflexivity|].
  cbn [rev_onto clean_chars]. rewrite IH. cbn [clean_chars].
  destruct (Ascii.eqb a "$" || Ascii.eqb a " " || Ascii.eqb a "."); [reflexivity|].
  destruct (Ascii.eqb a ","); reflexivity.
Qed.

Lemma clean_chars_rev (s : string) : clean_chars (rev s) = rev (clean_chars s).
Proof. unfold rev. now rewrite clean_chars_rev_onto. Qed.

Lemma clean_chars_drop_blanks (s : string) :
  clean_chars (drop_blanks s) = clean_chars s.
Proof.
  induction s as [|a s IH]; [reflexivity|].
  cbn [drop_blanks]. destruct (Ascii.eqb_spec a " ") as [->|_]; [|reflexivity].
  exact IH.
Qed.

Lemma clean_chars_app (s t : string) :
  clean_chars (s ++ t) = clean_chars s ++ clean_chars t.
Proof.
  induction s as [|a s IH]; [reflexivity|].
  cbn. rewrite IH.
  destruct (Ascii.eqb a "$" || Ascii.eqb a " " || Ascii.eqb a "."); [reflexivity|].
  destruct (Ascii.eqb a ","); reflexivity.
Qed.

(** On a text of plain characters [strip] takes the blanks off both
    ends and nothing else. *)
Lemma strip_plain (s : string) :
  all_chars is_plain s = true ->
  strip s = rev (drop_blanks (rev (drop_blanks s))).
Proof.
  intros H. unfold strip, rstrip.
  rewrite (lstrip_plain s H), lstrip_rev_plain; [reflexivity|].
  rewrite all_chars_rev. now apply all_chars_drop_blanks.
Qed.

Lemma strip_plain_all (s : string) :
  all_chars is_plain s = true -> all_chars is_plain (strip s) = true.
Proof.
  intros H. rewrite (strip_plain s H), all_chars_rev.
  apply all_chars_drop_blanks. rewrite all_chars_rev.
  now apply all_chars_drop_blanks.
Qed.

Lemma clean_chars_strip (s : string) :
  all_chars is_plain s = true -> clean_chars (strip s) = clean_chars s.
Proof.
  intros H. rewrite (strip_plain s H), clean_chars_rev, clean_chars_drop_blanks,
    clean_chars_rev, rev_involutive. apply clean_chars_drop_blanks.
Qed.

(** *** [replace] one character at a time *)

Lemma replace_single (c : ascii) (new s : string) :
  replace (String c EmptyString) new s = replace_char c new s.
Proof.
  unfold replace. induction s as [|a s IH]; [reflexivity|].
  cbn [replace_from replace_char startswith String.length Nat.sub].
  rewrite andb_true_r, IH. reflexivity.
Qed.

Lemma replace_nbsp_plain (s : string) :
  all_chars is_plain s = true -> replace nbsp " " s = s.
Proof.
  unfold replace. induction s as [|a s IH]; [reflexivity|].
  cbn [all_chars]. rewrite andb_true_iff. intros [Ha Hs].
  cbn [replace_from]. unfold nbsp at 1. cbn [startswith].
  destruct (Ascii.eqb_spec "194" a) as [<-|_].
  - apply plain_code in Ha. change (code "194") with 194%N in Ha. lia.
  - cbn. now rewrite IH.
Qed.

Lemma all_chars_replace_char (p : ascii -> bool) (c : ascii) (s : string) :
  all_chars p s = true -> all_chars p (replace_char c EmptyString s) = true.
Proof.
  induction s as [|a s IH]; [reflexivity|].
  cbn. rewrite andb_true_iff. intros [Ha Hs].
  destruct (Ascii.eqb c a); cbn; [now apply IH|].
  rewrite Ha. now apply IH.
Qed.

Lemma clean_amount_chars (s : string) :
  all_chars is_plain s = true -> clean_amount s = clean_chars s.
Proof.
  intros H. unfold clean_amount.
  change "$" with (String "$" EmptyString).
  change " " with (String " " EmptyString) at 2.
  change "." with (String "." EmptyString) at 1.
  change "," with (String "," EmptyString).
  rewrite !replace_single.
  rewrite replace_nbsp_plain by (now apply all_chars_replace_char).
  clear H. induction s as [|a s IH]; [reflexivity|].
  cbn [replace_char clean_chars].
  destruct (Ascii.eqb_spec "$" a) as [<-|N1]; [exact IH|].
  cbn [replace_char append].
  destruct (Ascii.eqb_spec " " a) as [<-|N2]; [exact IH|].
  cbn [replace_char append].
  destruct (Ascii.eqb_spec "." a) as [<-|N3]; [exact IH|].
  cbn [replace_char append].
  destruct (Ascii.eqb_spec "," a) as [<-|N4]; [cbn; now rewrite IH|].
  rewrite IH.
  destruct (Ascii.eqb_spec a "$"); [congruence|].
  destruct (Ascii.eqb_spec a " "); [congruence|].
  destruct (Ascii.eqb_spec a "."); [congruence|].
  destruct (Ascii.eqb_spec a ","); [congruence|].
  reflexivity.
Qed.

(** *** [float] on a cleaned amount *)

Lemma drop_blanks_none (s : string) :
  all_chars (fun c => negb (Ascii.eqb c " ")) s = true -> drop_blanks s = s.
Proof.
  destruct s as [|a s]; [reflexivity|].
  cbn. rewrite andb_true_iff. intros [Ha _].
  now destruct (Ascii.eqb a " ").
Qed.

Lemma number_char_plain (c : ascii) :
  is_number_char c = true -> is_plain c = true.
Proof.
  unfold is_number_char, is_plain.
  destruct (is_digit c); [reflexivity|].
  destruct (Ascii.eqb c "."); [reflexivity|].
  cbn. intros ->. now rewrite !orb_true_r.
Qed.

Lemma number_char_not_blank (c : ascii) :
  is_number_char c = true -> negb (Ascii.eqb c " ") = true.
Proof.
  unfold is_number_char. rewrite !orb_true_iff, !Ascii.eqb_eq.
  intros [[H| ->]| ->]; try reflexivity.
  destruct (Ascii.eqb_spec c " ") as [->|_]; [discriminate H|reflexivity].
Qed.

Lemma number_char_not_underscore (c : ascii) :
  is_number_char c = true -> Ascii.eqb c "_" = false.
Proof.
  unfold is_number_char. rewrite !orb_true_iff, !Ascii.eqb_eq.
  intros [[H| ->]| ->]; try reflexivity.
  destruct (Ascii.eqb_spec c "_") as [->|_]; [discriminate H|reflexivity].
Qed.

Lemma strip_number (s : string) :
  all_chars is_number_char s = true -> strip s = s.
Proof.
  intros H.
  rewrite strip_plain by (eapply all_chars_impl; [apply number_char_plain|exact H]).
  assert (Hb : all_chars (fun c => negb (Ascii.eqb c " ")) s = true)
    by (eapply all_chars_impl; [apply number_char_not_blank|exact H]).
  rewrite (drop_blanks_none s Hb), drop_blanks_none, rev_involutive;
    [reflexivity|].
  now rewrite all_chars_rev.
Qed.

Lemma remove_underscores_none (prev : ascii) (s : string) :
  Ascii.eqb prev "_" = false ->
  all_chars is_number_char s = true ->
  remove_underscores prev s = Some s.
Proof.
  revert prev. induction s as [|a s IH]; intros prev Hp.
  - intros _. cbn. now rewrite Hp.
  - cbn [all_chars]. rewrite andb_true_iff. intros [Ha Hs].
    pose proof (number_char_not_underscore a Ha) as Hu.
    cbn [remove_underscores]. rewrite Hu, Hp. cbn.
    now rewrite (IH a Hu Hs).
Qed.

Lemma split_sign_digit (a : ascii) (r : string) :
  is_digit a = true -> split_sign (String a r) = (false, String a r).
Proof.
  destruct a as [[] [] [] [] [] [] [] []]; try discriminate; reflexivity.
Qed.

Lemma span_digits_app (d r : string) :
  all_chars is_digit d = true ->
  match r with
  | String c _ => is_digit c = false
  | EmptyString => True
  end ->
  span_digits (d ++ r) = (d, r).
Proof.
  intros Hd Hr. induction d as [|a d IH].
  - cbn. destruct r as [|c r]; [reflexivity|]. cbn. now rewrite Hr.
  - cbn in Hd. apply andb_true_iff in Hd. destruct Hd as [Ha Hd].
    cbn. rewrite Ha, (IH Hd). reflexivity.
Qed.

Lemma span_digits_all (d : string) :
  all_chars is_digit d = true -> span_digits d = (d, EmptyString).
Proof.
  intros Hd. rewrite <- (append_empty d) at 1. now apply span_digits_app.
Qed.

Lemma parse_number_decimal (sign : bool) (ip : string) (dec : option string) :
  all_chars is_digit ip = true -> ip <> EmptyString ->
  all_chars is_digit (or_empty dec) = true ->
  parse_number sign (ip ++ match dec with
                           | Some fp => "." ++ fp
                           | None => EmptyString
                           end)
  = Some (of_decimal sign (digits_value 0 (ip ++ or_empty dec))
                     (- Z.of_nat (String.length (or_empty dec)))).
Proof.
  intros Hip Hne Hfp. unfold parse_number.
  destruct dec as [fp|]; cbn [or_empty] in *.
  - rewrite (span_digits_app ip ("." ++ fp) Hip) by reflexivity.
    cbn [append]. rewrite (span_digits_all fp Hfp).
    destruct (ip ++ fp) as [|c ds] eqn:E.
    + destruct ip; [congruence|discriminate E].
    + cbn [parse_exponent]. reflexivity.
  - rewrite (span_digits_app ip EmptyString Hip) by exact I.
    destruct (ip ++ EmptyString) as [|c ds] eqn:E.
    + destruct ip; [congruence|discriminate E].
    + cbn [parse_exponent String.length]. reflexivity.
Qed.

Lemma digits_number_chars (d : string) :
  all_chars is_digit d = true -> all_chars is_number_char d = true.
Proof.
  apply all_chars_impl. intros c H. unfold is_number_char. now rewrite H.
Qed.

Lemma py_float_decimal (minus : bool) (ip : string) (dec : option string) :
  all_chars is_digit ip = true -> ip <> EmptyString ->
  all_chars is_digit (or_empty dec) = true ->
  py_float ((if minus then "-" else EmptyString)
            ++ ip ++ match dec with
                     | Some fp => "." ++ fp
                     | None => EmptyString
                     end)
  = Some (of_decimal minus (digits_value 0 (ip ++ or_empty dec))
                     (- Z.of_nat (String.length (or_empty dec)))).
Proof.
  intros Hip Hne Hfp.
  set (body := ip ++ match dec with
                    | Some fp => "." ++ fp
                    | None => EmptyString
                    end).
  assert (Hbody : all_chars is_number_char body = true).
  { unfold body. rewrite all_chars_app, (digits_number_chars ip Hip).
    destruct dec as [fp|]; [|reflexivity].
    cbn. now apply digits_number_chars. }
  assert (Hall : all_chars is_number_char
                   ((if minus then "-" else EmptyString) ++ body) = true).
  { destruct minus; [|exact Hbody]. cbn. exact Hbody. }
  unfold py_float. rewrite (strip_number _ Hall).
  rewrite remove_underscores_none by (reflexivity || exact Hall).
  destruct minus.
  - cbn [append split_sign]. now apply parse_number_decimal.
  - cbn [append]. destruct ip as [|a ip]; [congruence|].
    unfold body. cbn [append]. cbn in Hip. apply andb_true_iff in Hip.
    rewrite (split_sign_digit a _ (proj1 Hip)).
    apply (parse_number_decimal false (String a ip) dec);
      [cbn; now apply andb_true_iff|discriminate|exact Hfp].
Qed.

(** *** Amounts in the format of the statement *)

Lemma amount_char_plain (c : ascii) :
  is_amount_char c = true -> is_plain c = true.
Proof.
  unfold is_amount_char, is_grouping, is_plain.
  destruct (is_digit c); [reflexivity|].
  destruct (Ascii.eqb c "."); [reflexivity|].
  destruct (Ascii.eqb c "$"); [reflexivity|].
  cbn. intros ->. reflexivity.
Qed.

Lemma digit_plain (c : ascii) : is_digit c = true -> is_plain c = true.
Proof. intros H. unfold is_plain. now rewrite H. Qed.

Lemma digit_not_cleaned (c : ascii) :
  is_digit c = true ->
  Ascii.eqb c "$" || Ascii.eqb c " " || Ascii.eqb c "." = false
  /\ Ascii.eqb c "," = false.
Proof.
  intros H.
  destruct (Ascii.eqb_spec c "$") as [->|_]; [discriminate H|].
  destruct (Ascii.eqb_spec c " ") as [->|_]; [discriminate H|].
  destruct (Ascii.eqb_spec c ".") as [->|_]; [discriminate H|].
  destruct (Ascii.eqb_spec c ",") as [->|_]; [discriminate H|].
  split; reflexivity.
Qed.

Lemma clean_chars_digits (d : string) :
  all_chars is_digit d = true -> clean_chars d = d.
Proof.
  induction d as [|a d IH]; [reflexivity|].
  cbn. rewrite andb_true_iff. intros [Ha Hd].
  destruct (digit_not_cleaned a Ha) as [-> ->]. now rewrite IH.
Qed.

Lemma clean_chars_amount (w : string) :
  all_chars is_amount_char w = true -> clean_chars w = digits_of w.
Proof.
  induction w as [|a w IH]; [reflexivity|].
  cbn. rewrite andb_true_iff. intros [Ha Hw].
  destruct (is_digit a) eqn:Hd.
  - destruct (digit_not_cleaned a Hd) as [-> ->]. now rewrite IH.
  - unfold is_amount_char, is_grouping in Ha. rewrite Hd in Ha. cbn in Ha.
    replace (Ascii.eqb a "$" || Ascii.eqb a " " || Ascii.eqb a ".") with true.
    + now apply IH.
    + destruct (Ascii.eqb a "."), (Ascii.eqb a "$"), (Ascii.eqb a " ");
        try reflexivity; discriminate Ha.
Qed.

Lemma digits_of_digits (w : string) : all_chars is_digit (digits_of w) = true.
Proof.
  induction w as [|a w IH]; [reflexivity|].
  cbn. destruct (is_digit a) eqn:E; [|exact IH]. cbn. now rewrite E.
Qed.

Lemma amount_text_plain (minus : bool) (w : string) (dec : option string) :
  all_chars is_amount_char w = true ->
  all_chars is_digit (or_empty dec) = true ->
  all_chars is_plain (amount_text minus w dec) = true.
Proof.
  intros Hw Hd. unfold amount_text. rewrite !all_chars_app.
  rewrite (all_chars_impl _ _ w amount_char_plain Hw).
  destruct minus, dec as [fp|]; cbn in *; try reflexivity;
    now apply (all_chars_impl _ _ fp digit_plain).
Qed.

Lemma clean_chars_amount_text (minus : bool) (w : string)
      (dec : option string) :
  all_chars is_amount_char w = true ->
  all_chars is_digit (or_empty dec) = true ->
  clean_chars (amount_text minus w dec)
  = (if minus then "-" else EmptyString)
    ++ digits_of w ++ match dec with
                      | Some fp => "." ++ fp
                      | None => EmptyString
                      end.
Proof.
  intros Hw Hd. unfold amount_text.
  rewrite !clean_chars_app, (clean_chars_amount w Hw).
  destruct minus, dec as [fp|]; cbn in *;
    rewrite ?(clean_chars_digits fp Hd); reflexivity.
Qed.

Lemma length_append (s t : string) :
  String.length (s ++ t) = (String.length s + String.length t)%nat.
Proof. induction s as [|a s IH]; [reflexivity|]. cbn. now rewrite IH. Qed.

(** A text of plain characters that cleans to a sign, digits and
    optional decimals is read as that decimal number. *)
Lemma parse_amount_plain (x : string) (minus : bool) (ip : string)
      (dec : option string) :
  all_chars is_plain x = true ->
  clean_chars x = (if minus then "-" else EmptyString)
                  ++ ip ++ match dec with
                           | Some fp => "." ++ fp
                           | None => EmptyString
                           end ->
  all_chars is_digit ip = true -> ip <> EmptyString ->
  all_chars is_digit (or_empty dec) = true ->
  _parse_amount (Some x)
  = of_decimal minus (digits_value 0 (ip ++ or_empty dec))
               (- Z.of_nat (String.length (or_empty dec))).
Proof.
  intros Hplain Hx Hip Hne Hd.
  pose proof (clean_chars_strip _ Hplain) as Hclean. rewrite Hx in Hclean.
  assert (Hlen : (2 <= String.length (clean_chars (strip x))
                  \/ exists c, is_digit c = true
                       /\ clean_chars (strip x) = String c EmptyString)%nat).
  { rewrite Hclean. rewrite !length_append.
    destruct ip as [|c ds]; [congruence|].
    cbn in Hip. apply andb_true_iff in Hip.
    destruct minus; [left; cbn; lia|].
    destruct ds as [|c' ds]; [|left; cbn; lia].
    destruct dec as [fp|]; [left; cbn; lia|].
    right. exists c. split; [tauto|reflexivity]. }
  unfold _parse_amount.
  destruct (String.eqb_spec (strip x) EmptyString) as [E|_].
  { rewrite E in Hlen. cbn in Hlen. destruct Hlen as [H|(c & _ & H)];
      [lia|discriminate H]. }
  destruct (String.eqb_spec (strip x) "-") as [E|_].
  { rewrite E in Hlen. cbn in Hlen. destruct Hlen as [H|(c & Hc & H)]; [lia|].
    injection H as <-. discriminate Hc. }
  cbn [orb].
  rewrite (clean_amount_chars _ (strip_plain_all _ Hplain)), Hclean.
  rewrite (py_float_decimal minus ip dec Hip Hne Hd).
  reflexivity.
Qed.



(** ** The sign of a converted decimal *)

Lemma shr_1_nonneg (mrs : shr_record) : 0 <= shr_m mrs -> 0 <= shr_m (shr_1 mrs).
Proof.
  destruct mrs as [m r s]. cbn.
  destruct m as [|[p|p|]|[p|p|]]; cbn; lia.
Qed.

Lemma iter_shr_1_nonneg (p : positive) (mrs : shr_record) :
  0 <= shr_m mrs -> 0 <= shr_m (iter_pos shr_1 p mrs).
Proof.
  revert mrs. induction p as [p IH|p IH|]; intros mrs H; cbn.
  - apply IH, IH, shr_1_nonneg, H.
  - apply IH, IH, H.
  - apply shr_1_nonneg, H.
Qed.

Lemma shr_fexp_nonneg (m e : Z) (l : location) :
  0 <= m -> 0 <= shr_m (fst (shr_fexp prec emax m e l)).
Proof.
  intros H. unfold shr_fexp, shr.
  assert (H0 : 0 <= shr_m (shr_record_of_loc m l))
    by (destruct l as [|[]]; exact H).
  destruct (fexp prec emax (Zdigits2 m + e) - e); cbn; try exact H0.
  now apply iter_shr_1_nonneg.
Qed.

Lemma round_nearest_even_nonneg (m : Z) (l : location) :
  0 <= m -> 0 <= round_nearest_even m l.
Proof.
  intros H. destruct l as [|[]]; cbn; try lia.
  destruct (Z.even m); lia.
Qed.

Lemma binary_round_aux_sign (s : bool) (m e : Z) (l : location) :
  0 <= m -> has_sign s (binary_round_aux prec emax s m e l).
Proof.
  intros H. unfold binary_round_aux.
  pose proof (shr_fexp_nonneg m e l H) as H1.
  destruct (shr_fexp prec emax m e l) as [mrs' e'].
  cbn [fst] in H1.
  pose proof (shr_fexp_nonneg
                (round_nearest_even (shr_m mrs') (loc_of_shr_record mrs'))
                e' loc_Exact (round_nearest_even_nonneg _ _ H1)) as H2.
  destruct (shr_fexp prec emax _ e' loc_Exact) as [mrs'' e''].
  cbn [fst] in H2.
  destruct (shr_m mrs'') as [|p|p]; [reflexivity| |lia].
  destruct (e'' <=? emax - prec); reflexivity.
Qed.

Lemma of_decimal_sign (s : bool) (m e : Z) : has_sign s (of_decimal s m e).
Proof.
  unfold of_decimal. destruct m as [|p|p]; [reflexivity| |reflexivity].
  destruct (0 <=? e) eqn:He.
  - unfold binary_round.
    destruct (shl_align _ _ _) as [mz ez]. now apply binary_round_aux_sign.
  - apply Z.leb_gt in He. unfold SFdiv_core_binary.
    set (m' := match _ - _ - _ with Zpos _ => _ | Z0 => _ | Zneg _ => _ end).
    assert (Hm : 0 <= m').
    { unfold m'. destruct (_ - _ - _); [lia| |lia].
      apply Z.shiftl_nonneg. lia. }
    assert (Hd : 0 < 10 ^ (- e)).
    { apply Z.pow_pos_nonneg; lia. }
    pose proof (Z.div_pos m' (10 ^ (- e)) Hm Hd) as Hq.
    unfold Z.div in Hq. destruct (Z.div_eucl m' (10 ^ (- e))) as [q r].
    now apply binary_round_aux_sign.
Qed.

Lemma has_sign_nonnegative (x : float) :
  has_sign false x -> ge x zero = true /\ is_nan x = false.
Proof.
  destruct x as [s|s| |s m e]; cbn; intros H; subst; try easy.
Qed.

Lemma binary_round_aux_opp (s : bool) (m e : Z) (l : location) :
  binary_round_aux prec emax (negb s) m e l
  = neg (binary_round_aux prec emax s m e l).
Proof.
  unfold binary_round_aux.
  destruct (shr_fexp prec emax m e l) as [mrs' e'].
  destruct (shr_fexp prec emax _ e' loc_Exact) as [mrs'' e''].
  destruct (shr_m mrs''); [reflexivity| |reflexivity].
  destruct (e'' <=? emax - prec); reflexivity.
Qed.

Lemma of_decimal_opp (m e : Z) :
  of_decimal true m e = neg (of_decimal false m e).
Proof.
  unfold of_decimal. destruct m as [|p|p]; [reflexivity| |reflexivity].
  destruct (0 <=? e).
  - unfold binary_round. destruct (shl_align _ _ _) as [mz ez].
    apply (binary_round_aux_opp false).
  - destruct (SFdiv_core_binary _ _ _ _ _ _) as [[q e'] l].
    apply (binary_round_aux_opp false).
Qed.

(** ** More on the classifier *)

(** X4: the category of a description is one of ten labels, and it is
    outside the list [categorias_interes] of the tax summary exactly when
    it is [PAGO HABERES], [DEPÓSITO EFECTIVO] or [OTROS]. *)
Theorem clasificar_range (desc : option string) :
  In (_clasificar_movimiento desc) all_categories
  /\ (isin (_clasificar_movimiento desc) categorias_interes = false
      <-> In (_clasificar_movimiento desc)
             ["PAGO HABERES"; "DEPÓSITO EFECTIVO"; "OTROS"]).
Proof.
  unfold _clasificar_movimiento.
  repeat match goal with
         | |- context [if ?b then _ else _] => destruct b
         end;
    (split; [cbn; tauto|]);
    (split; [intros H; vm_compute in H; try discriminate H; cbn; tauto
            |intros H; cbn in H;
             repeat (destruct H as [H|H]; try discriminate H);
             try contradiction; reflexivity]).
Qed.

Lemma lower_ascii_idem (c : ascii) : lower_ascii (lower_ascii c) = lower_ascii c.
Proof.
  destruct c as [[] [] [] [] [] [] [] []]; reflexivity.
Qed.

Lemma lower_latin1_idem (c : ascii) :
  lower_latin1 (lower_latin1 c) = lower_latin1 c.
Proof.
  destruct c as [[] [] [] [] [] [] [] []]; reflexivity.
Qed.

Lemma lower_ascii_lead (c : ascii) :
  (code (lower_ascii c) =? 195)%N = (code c =? 195)%N.
Proof.
  destruct c as [[] [] [] [] [] [] [] []]; reflexivity.
Qed.

Lemma lower_from_idem (b : bool) (s : string) :
  lower_from b (lower_from b s) = lower_from b s.
Proof.
  revert b. induction s as [|c s IH]; intros b; [reflexivity|].
  destruct b; cbn [lower_from].
  - now rewrite lower_latin1_idem, IH.
  - now rewrite lower_ascii_idem, lower_ascii_lead, IH.
Qed.

(** X5: the classifier ignores letter case: a description and its
    lower-case form get the same category. *)
Theorem clasificar_ignores_case (d : string) :
  _clasificar_movimiento (Some (lower d)) = _clasificar_movimiento (Some d).
Proof.
  unfold _clasificar_movimiento. cbn [or_empty].
  unfold lower. now rewrite lower_from_idem.
Qed.

Lemma startswith_app (p q s : string) :
  startswith (p ++ q) s = true -> startswith p s = true.
Proof.
  revert s. induction p as [|a p IH]; intros s; [reflexivity|].
  destruct s as [|b s]; cbn; [discriminate|].
  rewrite !andb_true_iff. intros [E H]. split; [exact E|now apply IH].
Qed.

Lemma contains_app (p q s : string) :
  contains (p ++ q) s = true -> contains p s = true.
Proof.
  induction s as [|b s IH].
  - cbn [contains]. rewrite !orb_false_r. apply startswith_app.
  - cbn [contains]. rewrite !orb_true_iff.
    intros [H|H]; [left; now apply (startswith_app p q)|right; now apply IH].
Qed.

(** X6: the second test of the rule for [IVA 21%] never decides: a
    description with [iva 21% reg] already has [iva 21], so the rule is
    the single test for [iva 21]. *)
Theorem iva_21_second_test_redundant (desc : option string) :
  contains "iva 21" (lower (or_empty desc))
  || contains "iva 21% reg" (lower (or_empty desc))
  = contains "iva 21" (lower (or_empty desc)).
Proof.
  destruct (contains "iva 21" (lower (or_empty desc))) eqn:E; [reflexivity|].
  destruct (contains "iva 21% reg" (lower (or_empty desc))) eqn:F; [|reflexivity].
  rewrite (contains_app "iva 21" "% reg" _ F) in E. discriminate.
Qed.

(** ** The date parser *)

Lemma digit_value_range (c : ascii) :
  is_digit c = true -> 0 <= digit_value c <= 9.
Proof. intros H. apply digit_code in H. unfold digit_value. lia. Qed.

Lemma two_digits_In (ok : Z -> Z -> bool) (s : string) (v : Z) (r : string) :
  In (v, r) (two_digits ok s) <->
  exists a b, s = String a (String b r)
              /\ is_digit a = true /\ is_digit b = true
              /\ ok (digit_value a) (digit_value b) = true
              /\ v = two_digit_value a b.
Proof.
  unfold two_digits, two_digit_value. split.
  - destruct s as [|a [|b r']]; try (intros []).
    destruct (is_digit a) eqn:Ea; [|intros []].
    destruct (is_digit b) eqn:Eb; [|intros []].
    destruct (ok _ _) eqn:Eo; [|intros []].
    cbn. intros [[= <- <-]|[]]. now exists a, b.
  - intros (a & b & -> & Ea & Eb & Eo & ->). rewrite Ea, Eb, Eo. now left.
Qed.

Lemma one_digit_In (s : string) (v : Z) (r : string) :
  In (v, r) (one_digit s) <->
  exists a, s = String a r /\ is_digit a = true
            /\ 1 <= digit_value a /\ v = digit_value a.
Proof.
  unfold one_digit. split.
  - destruct s as [|a r']; [intros []|].
    destruct (is_digit a) eqn:Ea; [|intros []].
    destruct (1 <=? digit_value a) eqn:E1; [|intros []].
    cbn. intros [[= <- <-]|[]]. exists a. apply Z.leb_le in E1. tauto.
  - intros (a & -> & Ea & E1 & ->). rewrite Ea.
    apply Z.leb_le in E1. rewrite E1. now left.
Qed.

Lemma literal_In (c : ascii) (s r : string) :
  In r (literal c s) <-> s = String c r.
Proof.
  unfold literal. destruct s as [|a r']; [split; [intros []|discriminate]|].
  destruct (Ascii.eqb_spec a c) as [->|N]; cbn.
  - split; [intros [<-|[]]; reflexivity|intros [= <-]; now left].
  - split; [intros []|intros [= E _]; congruence].
Qed.

Lemma directive_d_range (s : string) (d : Z) (r : string) :
  In (d, r) (directive_d s) -> 1 <= d <= 31.
Proof.
  unfold directive_d. rewrite !in_app_iff, !two_digits_In, one_digit_In.
  intros [H|[H|[H|[H|H]]]].
  - destruct H as (a & b & _ & Ha & Hb & Ho & ->).
    apply andb_true_iff in Ho. rewrite Z.eqb_eq, Z.leb_le in Ho.
    apply digit_value_range in Hb. unfold two_digit_value. lia.
  - destruct H as (a & b & _ & Ha & Hb & Ho & ->).
    apply andb_true_iff in Ho. rewrite !Z.leb_le in Ho.
    apply digit_value_range in Hb. unfold two_digit_value. lia.
  - destruct H as (a & b & _ & Ha & Hb & Ho & ->).
    apply andb_true_iff in Ho. rewrite Z.eqb_eq, Z.leb_le in Ho.
    apply digit_value_range in Hb. unfold two_digit_value. lia.
  - destruct H as (a & _ & Ha & H1 & ->).
    apply digit_value_range in Ha. lia.
  - destruct s as [|c s]; [destruct H|].
    destruct (Ascii.eqb_spec c " ") as [->|N].
    + apply one_digit_In in H. destruct H as (a & _ & Ha & H1 & ->).
      apply digit_value_range in Ha. lia.
    + exfalso. revert H. clear -N.
      destruct c as [[] [] [] [] [] [] [] []]; try (intros []).
      congruence.
Qed.

Lemma directive_m_range (s : string) (m : Z) (r : string) :
  In (m, r) (directive_m s) -> 1 <= m <= 12.
Proof.
  unfold directive_m. rewrite !in_app_iff, !two_digits_In, one_digit_In.
  intros [H|[H|H]].
  - destruct H as (a & b & _ & Ha & Hb & Ho & ->).
    apply andb_true_iff in Ho. rewrite Z.eqb_eq, Z.leb_le in Ho.
    apply digit_value_range in Hb. unfold two_digit_value. lia.
  - destruct H as (a & b & _ & Ha & Hb & Ho & ->).
    apply andb_true_iff in Ho. rewrite Z.eqb_eq, Z.leb_le in Ho.
    apply digit_value_range in Hb. unfold two_digit_value. lia.
  - destruct H as (a & _ & Ha & H1 & ->).
    apply digit_value_range in Ha. lia.
Qed.

Lemma directive_y_range (s : string) (y : Z) (r : string) :
  In (y, r) (directive_y s) -> 0 <= y <= 99.
Proof.
  unfold directive_y. rewrite two_digits_In.
  intros (a & b & _ & Ha & Hb & _ & ->).
  apply digit_value_range in Ha, Hb. unfold two_digit_value. lia.
Qed.

Lemma match_dmy_readings (s : string) : match_dmy s = hd_error (dmy_readings s).
Proof. reflexivity. Qed.

Lemma dmy_readings_In (s : string) (d m y : Z) (r : string) :
  In (d, m, y, r) (dmy_readings s) <->
  exists r1 r3,
    In (d, r1) (directive_d s)
    /\ In (m, r3) (directive_m (match r1 with
                                | String _ r2 => r2
                                | EmptyString => EmptyString
                                end))
    /\ In (y, r) (directive_y (match r3 with
                               | String _ r4 => r4
                               | EmptyString => EmptyString
                               end))
    /\ (exists r2, r1 = String "/" r2) /\ (exists r4, r3 = String "/" r4).
Proof.
  unfold dmy_readings. rewrite in_flat_map. split.
  - intros ([d' r1] & Hd & H). rewrite in_flat_map in H.
    destruct H as (r2 & H2 & H). rewrite in_flat_map in H.
    destruct H as ([m' r3] & Hm & H). rewrite in_flat_map in H.
    destruct H as (r4 & H4 & H). rewrite in_map_iff in H.
    destruct H as ([y' r5] & [= <- <- <- <-] & Hy).
    apply literal_In in H2, H4. subst r1 r3.
    exists (String "/" r2), (String "/" r4). cbn. eauto 10.
  - intros (r1 & r3 & Hd & Hm & Hy & [r2 ->] & [r4 ->]). cbn in Hm, Hy.
    exists (d, String "/" r2). split; [exact Hd|].
    rewrite in_flat_map. exists r2. split; [now apply literal_In|].
    rewrite in_flat_map. exists (m, String "/" r4). split; [exact Hm|].
    rewrite in_flat_map. exists r4. split; [now apply literal_In|].
    rewrite in_map_iff. now exists (y, r).
Qed.

Lemma hd_error_In {A : Type} (l : list A) (x : A) :
  hd_error l = Some x -> In x l.
Proof. destruct l; [discriminate|]. intros [= ->]. now left. Qed.

Lemma days_in_month_le (y m : Z) : days_in_month y m <= 31.
Proof.
  unfold days_in_month.
  destruct (m =? 2); [destruct (is_leap y); lia|].
  destruct ((m =? 4) || (m =? 6) || (m =? 9) || (m =? 11)); lia.
Qed.

(** X7: a date the parser accepts is a day of the calendar: the month
    is 1..12, the day exists in that month of that year, leap years
    counted, and the year is in 1969..2068. *)
Theorem to_datetime_valid (s : string) (ts : Timestamp) :
  to_datetime s = Some ts -> valid_date ts.
Proof.
  unfold to_datetime.
  destruct (match_dmy s) as [[[[d m] y] r]|] eqn:E; [|discriminate].
  destruct r; [|discriminate].
  rewrite match_dmy_readings in E. apply hd_error_In, dmy_readings_In in E.
  destruct E as (r1 & r3 & Hd & Hm & Hy & _ & _).
  apply directive_d_range in Hd. apply directive_m_range in Hm.
  apply directive_y_range in Hy.
  destruct (d <=? days_in_month _ m) eqn:Ed; [|discriminate].
  intros [= <-]. apply Z.leb_le in Ed. unfold valid_date. cbn.
  destruct (y <=? 68) eqn:E68; [apply Z.leb_le in E68|apply Z.leb_gt in E68];
    repeat split; lia.
Qed.

Lemma to_datetime_valid_witness :
  valid_date {| year := 2024; month := 2; day := 29 |}.
Proof. apply (to_datetime_valid "29/02/24"). reflexivity. Defined.

Lemma digit_not_slash (c : ascii) : is_digit c = true -> c <> "/"%char.
Proof. intros H ->. discriminate H. Qed.

Lemma digit_not_blank (c : ascii) : is_digit c = true -> c <> " "%char.
Proof. intros H ->. discriminate H. Qed.

Section DateText.
Variables d1 d2 m1 m2 y1 y2 : ascii.
Variable rest : string.
Hypothesis Hd1 : is_digit d1 = true.
Hypothesis Hd2 : is_digit d2 = true.
Hypothesis Hm1 : is_digit m1 = true.
Hypothesis Hm2 : is_digit m2 = true.
Hypothesis Hy1 : is_digit y1 = true.
Hypothesis Hy2 : is_digit y2 = true.

Local Abbreviation txt := (date_text d1 d2 m1 m2 y1 y2 rest).
Local Abbreviation dd := (two_digit_value d1 d2).
Local Abbreviation mm := (two_digit_value m1 m2).
Local Abbreviation yy := (two_digit_value y1 y2).

Lemma directive_d_date_text (d : Z) (r2 : string) :
  In (d, String "/" r2) (directive_d txt) ->
  d = dd /\ r2 = String m1 (String m2 (String "/" (String y1 (String y2 rest)))).
Proof.
  unfold directive_d, date_text.
  rewrite !in_app_iff, !two_digits_In, one_digit_In.
  intros [H|[H|[H|[H|H]]]].
  - destruct H as (a & b & [= <- <- <-] & _ & _ & _ & ->). now split.
  - destruct H as (a & b & [= <- <- <-] & _ & _ & _ & ->). now split.
  - destruct H as (a & b & [= <- <- <-] & _ & _ & _ & ->). now split.
  - destruct H as (a & [= <- E] & _).
    destruct (digit_not_slash d2 Hd2); congruence.
  - exfalso. revert H. generalize (digit_not_blank d1 Hd1). clear.
    destruct d1 as [[] [] [] [] [] [] [] []]; try (intros _ []).
    congruence.
Qed.

Lemma directive_m_date_text (m : Z) (r4 r : string) :
  In (m, String "/" r4) (directive_m (String m1 (String m2 (String "/" r)))) ->
  m = mm /\ r4 = r.
Proof.
  unfold directive_m. rewrite !in_app_iff, !two_digits_In, one_digit_In.
  intros [H|[H|H]].
  - destruct H as (a & b & [= <- <- <-] & _ & _ & _ & ->). now split.
  - destruct H as (a & b & [= <- <- <-] & _ & _ & _ & ->). now split.
  - destruct H as (a & [= <- E] & _).
    destruct (digit_not_slash m2 Hm2); congruence.
Qed.

Lemma dmy_readings_date_text (d m y : Z) (r : string) :
  In (d, m, y, r) (dmy_readings txt) -> (d, m, y, r) = (dd, mm, yy, rest).
Proof.
  rewrite dmy_readings_In.
  intros (r1 & r3 & Hd & Hm & Hy & [r2 ->] & [r4 ->]).
  apply directive_d_date_text in Hd. destruct Hd as [-> ->].
  apply directive_m_date_text in Hm. destruct Hm as [-> ->].
  unfold directive_y in Hy. apply two_digits_In in Hy.
  destruct Hy as (a & b & [= <- <- <-] & _ & _ & _ & ->). reflexivity.
Qed.

Lemma dmy_readings_date_text_In :
  1 <= dd <= 31 -> 1 <= mm <= 12 -> In (dd, mm, yy, rest) (dmy_readings txt).
Proof.
  intros Hdd Hmm. apply dmy_readings_In.
  exists (String "/" (String m1 (String m2 (String "/" (String y1 (String y2 rest)))))),
         (String "/" (String y1 (String y2 rest))).
  pose proof (digit_value_range d1 Hd1) as R1.
  pose proof (digit_value_range d2 Hd2) as R2.
  pose proof (digit_value_range m1 Hm1) as R3.
  pose proof (digit_value_range m2 Hm2) as R4.
  unfold two_digit_value in Hdd, Hmm.
  split; [|split; [|split; [|split; eexists; reflexivity]]].
  - unfold directive_d, date_text. rewrite !in_app_iff, !two_digits_In.
    assert (C : digit_value d1 = 3 /\ digit_value d2 <= 1
                \/ 1 <= digit_value d1 <= 2
                \/ digit_value d1 = 0 /\ 1 <= digit_value d2) by lia.
    destruct C as [[E1 E2]|[E|[E1 E2]]].
    + left. exists d1, d2. rewrite E1. apply Z.leb_le in E2. rewrite E2. auto.
    + right. left. exists d1, d2.
      assert ((1 <=? digit_value d1) && (digit_value d1 <=? 2) = true)
        by (apply andb_true_iff; rewrite !Z.leb_le; lia).
      auto.
    + right. right. left. exists d1, d2. rewrite E1.
      apply Z.leb_le in E2. rewrite E2. auto.
  - cbv beta iota. unfold directive_m. rewrite !in_app_iff, !two_digits_In.
    assert (C : digit_value m1 = 1 /\ digit_value m2 <= 2
                \/ digit_value m1 = 0 /\ 1 <= digit_value m2) by lia.
    destruct C as [[E1 E2]|[E1 E2]].
    + left. exists m1, m2. rewrite E1. apply Z.leb_le in E2. rewrite E2. auto.
    + right. left. exists m1, m2. rewrite E1.
      apply Z.leb_le in E2. rewrite E2. auto.
  - cbv beta iota. unfold directive_y. apply two_digits_In. exists y1, y2. auto.
Qed.

Lemma match_dmy_date_text :
  match_dmy txt
  = if (1 <=? dd) && (dd <=? 31) && (1 <=? mm) && (mm <=? 12)
    then Some (dd, mm, yy, rest) else None.
Proof.
  rewrite match_dmy_readings.
  destruct (dmy_readings txt) as [|[[[d m] y] r] l] eqn:E.
  - destruct ((1 <=? dd) && (dd <=? 31) && (1 <=? mm) && (mm <=? 12)) eqn:C;
      [|reflexivity].
    rewrite !andb_true_iff, !Z.leb_le in C.
    assert (H : In (dd, mm, yy, rest) (dmy_readings txt))
      by (apply dmy_readings_date_text_In; lia).
    rewrite E in H. destruct H.
  - assert (H : In (d, m, y, r) (dmy_readings txt)) by (rewrite E; now left).
    pose proof (dmy_readings_date_text d m y r H) as [= -> -> -> ->].
    apply dmy_readings_In in H.
    destruct H as (r1 & r3 & Hd & Hm & _).
    apply directive_d_range in Hd. apply directive_m_range in Hm.
    assert (C : (1 <=? dd) && (dd <=? 31) && (1 <=? mm) && (mm <=? 12) = true)
      by (rewrite !andb_true_iff, !Z.leb_le; lia).
    rewrite C. reflexivity.
Qed.

(** X8: a text that starts with the pattern of dates has a date exactly
    when nothing follows the pattern and the day exists; the date is then
    the day, month and year the digits write, a year up to 68 in the
    2000s and from 69 in the 1900s. *)
Theorem to_datetime_date_text (ts : Timestamp) :
  to_datetime txt = Some ts
  <-> rest = EmptyString
      /\ ts = {| year := if yy <=? 68 then yy + 2000 else yy + 1900;
                 month := mm; day := dd |}
      /\ 1 <= mm <= 12
      /\ 1 <= dd <= days_in_month (year ts) mm.
Proof.
  unfold to_datetime. rewrite match_dmy_date_text.
  destruct ((1 <=? dd) && (dd <=? 31) && (1 <=? mm) && (mm <=? 12)) eqn:C.
  - rewrite !andb_true_iff, !Z.leb_le in C.
    destruct rest as [|c r].
    + destruct (dd <=? days_in_month _ mm) eqn:Ed.
      * apply Z.leb_le in Ed. split.
        -- intros [= <-]. cbn. repeat split; lia.
        -- intros (_ & -> & _). reflexivity.
      * apply Z.leb_gt in Ed. split; [discriminate|].
        intros (_ & -> & _ & H). cbn in H. lia.
    + split; [discriminate|]. intros (H & _). discriminate H.
  - split; [discriminate|]. intros (_ & -> & Hm & Hd). cbn in Hd.
    pose proof (days_in_month_le (if yy <=? 68 then yy + 2000 else yy + 1900) mm).
    assert (C' : (1 <=? dd) && (dd <=? 31) && (1 <=? mm) && (mm <=? 12) = true)
      by (rewrite !andb_true_iff, !Z.leb_le; lia).
    congruence.
Qed.
End DateText.

(** ** Signs of the amounts of the statement *)

(** X2: on an amount in the format of the statement a leading minus
    sign negates the value, and without it the value is never negative
    and never a NaN. *)
Theorem parse_amount_minus_negates (w : string) (dec : option string) :
  all_chars is_amount_char w = true ->
  all_chars is_digit (or_empty dec) = true ->
  digits_of w <> EmptyString ->
  _parse_amount (Some (amount_text true w dec))
  = neg (_parse_amount (Some (amount_text false w dec)))
  /\ ge (_parse_amount (Some (amount_text false w dec))) zero = true
  /\ is_nan (_parse_amount (Some (amount_text false w dec))) = false.
Proof.
  intros Hw Hd Hne.
  assert (E : forall minus,
             _parse_amount (Some (amount_text minus w dec))
             = of_decimal minus (digits_value 0 (digits_of w ++ or_empty dec))
                          (- Z.of_nat (String.length (or_empty dec)))).
  { intros minus. apply parse_amount_plain;
      [now apply amount_text_plain|now apply clean_chars_amount_text
      |apply digits_of_digits|exact Hne|exact Hd]. }
  rewrite !E. split; [apply of_decimal_opp|].
  apply has_sign_nonnegative, of_decimal_sign.
Qed.

Lemma parse_amount_minus_negates_witness :
  _parse_amount (Some (amount_text true "1.250" (Some "50")))
  = neg (_parse_amount (Some (amount_text false "1.250" (Some "50")))).
Proof.
  apply (parse_amount_minus_negates "1.250" (Some "50"));
    [reflexivity|reflexivity|discriminate].
Defined.

Lemma unsigned_amount_cell_sign (txt : string) :
  unsigned_amount_cell txt ->
  has_sign false (_parse_amount (Some (strip txt))).
Proof.
  intros [E|(w & dec & -> & Hw & Hd & Hne)].
  - rewrite E. reflexivity.
  - pose proof (amount_text_plain false w dec Hw Hd) as Hplain.
    rewrite (parse_amount_plain (strip (amount_text false w dec)) false
               (digits_of w) dec).
    + apply of_decimal_sign.
    + now apply strip_plain_all.
    + rewrite (clean_chars_strip _ Hplain).
      now apply clean_chars_amount_text.
    + apply digits_of_digits.
    + exact Hne.
    + exact Hd.
Qed.

Lemma read_row_six (c1 c2 c3 c4 c5 c6 : cell) (rest : list cell) (r : Fila.t) :
  read_row (c1 :: c2 :: c3 :: c4 :: c5 :: c6 :: rest) = Some r ->
  Fila.debito r = _parse_amount (Some (strip (or_empty c4)))
  /\ Fila.credito r = _parse_amount (Some (strip (or_empty c5)))
  /\ (Fila.tipo r, Fila.importe_raw r, Fila.importe r)
     = direction (Fila.debito r) (Fila.credito r).
Proof.
  unfold read_row.
  destruct (any_cell _); [|discriminate]. cbn [negb map].
  unfold pad_to_six. cbn [List.length Nat.ltb Nat.leb].
  destruct (re_match fecha_re (strip (or_empty c1))); [|discriminate].
  cbn [negb].
  destruct (direction _ _) as [[tp raw] imp] eqn:E.
  intros [= <-].
  cbn [Fila.debito Fila.credito Fila.tipo Fila.importe_raw Fila.importe].
  split; [reflexivity|]. split; [reflexivity|]. symmetry. exact E.
Qed.

(** X3: in a row whose debit and credit cells are blank or amounts
    without a sign, the parsed debit and credit are not negative, and the
    direction agrees with the sign of the amount: a debit has a negative
    signed amount, a credit a positive one, and a row with neither has
    amount zero. *)
Theorem well_formed_row_direction (c1 c2 c3 c6 : cell) (deb cred : string)
        (rest : list cell) (t : Transaction) :
  unsigned_amount_cell deb -> unsigned_amount_cell cred ->
  build_row (c1 :: c2 :: c3 :: Some deb :: Some cred :: c6 :: rest) = Some t ->
  ge (debito t) zero = true /\ ge (credito t) zero = true
  /\ ((tipo t = "DEBITO" /\ gt (debito t) zero = true
       /\ importe_raw t = debito t /\ lt (importe t) zero = true)
      \/ (tipo t = "CREDITO" /\ gt (debito t) zero = false
          /\ gt (credito t) zero = true
          /\ importe_raw t = credito t /\ importe t = credito t)
      \/ (tipo t = EmptyString /\ gt (debito t) zero = false
          /\ gt (credito t) zero = false
          /\ importe_raw t = zero /\ importe t = zero)).
Proof.
  intros Hdeb Hcred. unfold build_row.
  destruct (read_row _) as [r|] eqn:E; [|discriminate].
  intros [= <-]. cbn [complete tipo debito credito importe importe_raw].
  destruct (read_row_six _ _ _ _ _ _ _ _ E) as (Ed & Ec & Edir).
  cbn [or_empty] in Ed, Ec.
  apply unsigned_amount_cell_sign, has_sign_nonnegative in Hdeb, Hcred.
  rewrite <- Ed in Hdeb. rewrite <- Ec in Hcred.
  destruct Hdeb as [Hdeb _], Hcred as [Hcred _].
  split; [exact Hdeb|]. split; [exact Hcred|].
  destruct (direction_of_nonnegative _ _ Hdeb Hcred)
    as [(D & G & L)|[(D & G1 & G2)|(D & G1 & G2)]];
    rewrite D in Edir; injection Edir as -> -> ->; tauto.
Qed.

Lemma well_formed_row_direction_witness :
  exists t,
    build_row [Some "02/01/24"; Some "B"; Some "Pago"; Some "$ 1.250,50";
               Some " "; Some "990,00"] = Some t
    /\ tipo t = "DEBITO" /\ lt (importe t) zero = true.
Proof.
  eexists. split; [vm_compute; reflexivity|].
  edestruct (well_formed_row_direction
               (Some "02/01/24") (Some "B") (Some "Pago") (Some "990,00")
               "$ 1.250,50" " " [])
    as (_ & _ & [H|[H|H]]).
  - right. exists "$ 1.250", (Some "50").
    repeat split; (reflexivity || discriminate).
  - left. reflexivity.
  - vm_compute. reflexivity.
  - split; [reflexivity|]. now destruct H as (_ & _ & _ & H).
  - destruct H as (H & _). discriminate H.
  - destruct H as (H & _). discriminate H.
Defined.


Lemma to_datetime_date_text_witness :
  to_datetime (date_text "2" "9" "0" "2" "2" "4" EmptyString)
  = Some {| year := 2024; month := 2; day := 29 |}.
Proof.
  apply (to_datetime_date_text "2" "9" "0" "2" "2" "4" EmptyString
           eq_refl eq_refl eq_refl eq_refl eq_refl eq_refl).
  repeat split; (reflexivity || discriminate).
Defined.

(** ** Tables and the rows they contribute *)

(** X9: a table contributes a row only if it has at least two rows and
    its header, stripped, in lower case and joined, has both [fecha] and
    [saldo]; and every row it contributes comes from one of its rows
    after the header. *)
Theorem read_table_gate (tb : table) (r : Fila.t) :
  In r (read_table tb) ->
  (2 <= List.length tb)%nat
  /\ contains "fecha" (header_join tb) = true
  /\ contains "saldo" (header_join tb) = true
  /\ exists raw_row, In raw_row (tl tb) /\ read_row raw_row = Some r.
Proof.
  unfold read_table, header_join.
  destruct (List.length tb <? 2)%nat eqn:L; [intros []|].
  apply Nat.ltb_ge in L.
  destruct tb as [|header_row body]; [intros []|]. cbn [hd tl].
  destruct (contains "fecha" _); cbn [andb]; [|intros []].
  destruct (contains "saldo" _); [|intros []].
  rewrite in_flat_map. intros (raw_row & Hin & Hr).
  repeat split; try assumption.
  exists raw_row. split; [exact Hin|].
  destruct (read_row raw_row) as [r'|]; [|destruct Hr].
  destruct Hr as [->|[]]. reflexivity.
Qed.

Lemma extract_rows_In (pdf : list (list table)) (r : Fila.t) :
  In r (extract_rows pdf) ->
  exists tables tb, In tables pdf /\ In tb tables /\ In r (read_table tb).
Proof.
  unfold extract_rows. rewrite in_flat_map. intros (tables & Hp & H).
  rewrite in_flat_map in H. destruct H as (tb & Ht & Hr). eauto.
Qed.

Lemma read_table_read_row (tb : table) (r : Fila.t) :
  In r (read_table tb) -> exists raw_row, read_row raw_row = Some r.
Proof.
  unfold read_table. destruct (List.length tb <? 2)%nat; [intros []|].
  destruct tb as [|header_row body]; [intros []|].
  destruct (_ && _); [|intros []].
  rewrite in_flat_map. intros (raw_row & _ & Hr). exists raw_row.
  destruct (read_row raw_row) as [r'|]; [|destruct Hr].
  destruct Hr as [->|[]]. reflexivity.
Qed.

Lemma extract_rows_read_row (pdf : list (list table)) (r : Fila.t) :
  In r (extract_rows pdf) -> exists raw_row, read_row raw_row = Some r.
Proof.
  intros H. apply extract_rows_In in H. destruct H as (tables & tb & _ & _ & H).
  now apply read_table_read_row in H.
Qed.

Lemma read_table_gate_witness :
  exists r,
    In r (read_table [[Some "Fecha"; Some "Saldo"]; [Some "01/03/24"]])
    /\ contains "saldo" (header_join [[Some "Fecha"; Some "Saldo"];
                                      [Some "01/03/24"]]) = true.
Proof.
  eexists. split; [vm_compute; left; reflexivity|].
  eapply (read_table_gate [[Some "Fecha"; Some "Saldo"]; [Some "01/03/24"]]).
  vm_compute. left. reflexivity.
Defined.

(** X10: pages and tables are read one after the other: the rows of a
    document in two parts are the rows of the first part followed by
    those of the second, and its ledger holds the transactions of the
    ledgers of the parts. *)
Theorem extract_rows_app (pdf1 pdf2 : list (list table)) :
  extract_rows (pdf1 ++ pdf2) = (extract_rows pdf1 ++ extract_rows pdf2)%list
  /\ Permutation (parse_santander_pdf (pdf1 ++ pdf2))
                 (parse_santander_pdf pdf1 ++ parse_santander_pdf pdf2).
Proof.
  assert (H : extract_rows (pdf1 ++ pdf2)
              = (extract_rows pdf1 ++ extract_rows pdf2)%list)
    by apply flat_map_app.
  split; [exact H|].
  rewrite !parse_santander_pdf_sorted. unfold sort_values.
  rewrite <- !(stable_sort_perm key_compare). rewrite H, map_app.
  reflexivity.
Qed.

(** ** Invariants of the ledger *)

Lemma read_row_direction (raw_row : list cell) (r : Fila.t) :
  read_row raw_row = Some r ->
  (Fila.tipo r, Fila.importe_raw r, Fila.importe r)
  = direction (Fila.debito r) (Fila.credito r).
Proof.
  unfold read_row. destruct (any_cell raw_row); [|discriminate].
  destruct raw_row as [|c rest]; [discriminate|].
  cbn [negb map].
  destruct (pad_to_six_cons (strip (or_empty c))
              (map (fun c => strip (or_empty c)) rest))
    as (c2 & c3 & c4 & c5 & c6 & more & Hpad).
  rewrite Hpad.
  destruct (re_match fecha_re (strip (or_empty c))); [|discriminate].
  cbn [negb]. destruct (direction _ _) as [[tp raw] imp] eqn:E.
  intros [= <-].
  cbn [Fila.debito Fila.credito Fila.tipo Fila.importe_raw Fila.importe].
  symmetry. exact E.
Qed.


Lemma ledger_Forall (P : Transaction -> Prop) (pdf : list (list table)) :
  (forall raw_row r, read_row raw_row = Some r -> P (complete r)) ->
  Forall P (parse_santander_pdf pdf).
Proof.
  intros H. rewrite parse_santander_pdf_sorted.
  eapply Permutation_Forall; [apply stable_sort_perm|].
  apply Forall_forall. intros t Ht. apply in_map_iff in Ht.
  destruct Ht as (r & <- & Hr).
  apply extract_rows_read_row in Hr. destruct Hr as [raw Hr].
  now apply (H raw).
Qed.


Lemma direction_consistent (deb cred : float) :
  In (fst (fst (direction deb cred))) ["DEBITO"; "CREDITO"; EmptyString]
  /\ is_nan (snd (fst (direction deb cred))) = false
  /\ is_nan (snd (direction deb cred)) = false
  /\ abs (snd (direction deb cred)) = abs (snd (fst (direction deb cred)))
  /\ (fst (fst (direction deb cred)) = EmptyString
      <-> snd (fst (direction deb cred)) = zero).
Proof.
  unfold direction, gt, abs, neg, zero.
  destruct deb as [[|]|[|]| |[|] md ed]; cbn;
    try (repeat split; (tauto || discriminate || reflexivity));
    destruct cred as [[|]|[|]| |[|] mc ec]; cbn;
    repeat split; (tauto || discriminate || reflexivity).
Qed.

Lemma complete_amounts (raw_row : list cell) (r : Fila.t) :
  read_row raw_row = Some r -> amounts_consistent (complete r).
Proof.
  intros H.
  pose proof (read_row_direction raw_row r H) as E.
  pose proof (direction_consistent (Fila.debito r) (Fila.credito r)) as D.
  rewrite <- E in D. exact D.
Qed.

(** X12: whatever the cells hold, every row of the ledger has [tipo]
    [DEBITO], [CREDITO] or empty, [importe] and [importe_raw] are never
    NaN and have the same magnitude, and [tipo] is empty exactly when
    [importe_raw] is [0.0]. *)
Theorem ledger_amounts_consistent (pdf : list (list table)) :
  Forall amounts_consistent (parse_santander_pdf pdf).
Proof. apply ledger_Forall. exact complete_amounts. Qed.

(** ** Sorting again *)

Lemma stable_sort_of_sorted {A : Type} (cmp : A -> A -> comparison)
      (l : list A) :
  StronglySorted (fun a b => cmp a b <> Gt) l -> stable_sort cmp l = l.
Proof.
  induction 1 as [|x l Hs IH Hx]; [reflexivity|].
  cbn [stable_sort]. rewrite IH.
  destruct l as [|y l]; [reflexivity|].
  cbn [insert_by]. inversion Hx as [|? ? Hxy _]; subst.
  apply le_by_true in Hxy. now rewrite Hxy.
Qed.

Lemma key_compare_total (x y : Transaction) :
  key_compare x y = Gt -> key_compare y x <> Gt.
Proof. rewrite !key_compare_lex. apply (order_le_total _ total_order_key). Qed.

Lemma key_compare_trans (x y z : Transaction) :
  key_compare x y <> Gt -> key_compare y z <> Gt -> key_compare x z <> Gt.
Proof. rewrite !key_compare_lex. apply (order_le_trans _ total_order_key). Qed.

(** X14: sorting a sorted frame changes nothing: [sort_values] is
    idempotent, so the ledger is a fixed point of the sort. *)
Theorem sort_values_idempotent :
  (forall df : DataFrame, sort_values (sort_values df) = sort_values df)
  /\ (forall pdf : list (list table),
         sort_values (parse_santander_pdf pdf) = parse_santander_pdf pdf).
Proof.
  assert (H : forall df : DataFrame,
             sort_values (sort_values df) = sort_values df).
  { intros df. unfold sort_values. apply stable_sort_of_sorted.
    apply stable_sort_sorted; [apply key_compare_total|apply key_compare_trans]. }
  split; [exact H|]. intros pdf. rewrite parse_santander_pdf_sorted. apply H.
Qed.

(** ** The closing balance and rows without a date *)

Lemma last_app_nonempty {A : Type} (l1 l2 : list A) (d : A) :
  l2 <> [] -> last (l1 ++ l2) d = last l2 d.
Proof.
  intros H. induction l1 as [|x l1 IH]; [reflexivity|].
  cbn [app]. destruct (l1 ++ l2)%list as [|y l] eqn:E.
  - destruct l1; [cbn in E; congruence|discriminate E].
  - exact IH.
Qed.

Lemma last_In {A : Type} (l : list A) (d : A) : l <> [] -> In (last l d) l.
Proof.
  induction l as [|x l IH]; [congruence|]. intros _.
  destruct l as [|y l]; [now left|]. right. apply IH. discriminate.
Qed.

(** X15: when the ledger has a row without a date, the closing balance
    is the balance of a row without a date, since these rows sort last
    and the closing balance is read from the last row. *)
Theorem closing_balance_of_undated (pdf : list (list table)) (t : Transaction) :
  In t (parse_santander_pdf pdf) -> fecha t = None ->
  exists u, In u (parse_santander_pdf pdf) /\ fecha u = None
            /\ snd (calcular_saldos (parse_santander_pdf pdf)) = saldo u.
Proof.
  intros Hin Ht.
  pose proof (sort_values_sorted (map complete (extract_rows pdf))) as Hs.
  rewrite <- parse_santander_pdf_sorted in Hs.
  destruct (sorted_dated_then_undated _ Hs) as (dated & undated & E & Hd & Hu).
  rewrite E in Hin |- *.
  assert (Hne : undated <> []).
  { apply in_app_or in Hin. destruct Hin as [H|H].
    - rewrite Forall_forall in Hd. now destruct (Hd t H).
    - intros ->. destruct H. }
  destruct (dated ++ undated)%list as [|first rest] eqn:F.
  { destruct dated; [cbn in F; congruence|discriminate F]. }
  cbn [calcular_saldos snd]. rewrite <- F.
  rewrite (last_app_nonempty dated undated first Hne).
  exists (last undated first). split; [|split; [|reflexivity]].
  - apply in_or_app. right. now apply last_In.
  - rewrite Forall_forall in Hu. apply Hu. now apply last_In.
Qed.

Lemma closing_balance_of_undated_witness :
  exists u,
    In u (parse_santander_pdf
            [[ [ [Some "Fecha"; Some "Saldo"];
                 [Some "31/02/99"; None; None; None; None; Some "5,00"];
                 [Some "01/03/24"; None; None; None; None; Some "7,00"] ] ]])
    /\ fecha u = None
    /\ snd (calcular_saldos
              (parse_santander_pdf
                 [[ [ [Some "Fecha"; Some "Saldo"];
                      [Some "31/02/99"; None; None; None; None; Some "5,00"];
                      [Some "01/03/24"; None; None; None; None; Some "7,00"] ] ]]))
       = saldo u.
Proof.
  eapply (closing_balance_of_undated _ _).
  - vm_compute. right. left. reflexivity.
  - reflexivity.
Defined.

(** ** The balances are balances of rows *)



(** ** More on the tax summary *)

Lemma construir_resumen_impositivo_entries (df : DataFrame) :
  construir_resumen_impositivo df
  = map (summary_entry df) (filter (occurs df) categorias_interes).
Proof.
  rewrite construir_resumen_impositivo_unfold, stable_sort_map.
  change (fun x y => Z.compare (orden (fst (summary_entry (tax_rows df) x)))
                               (orden (fst (summary_entry (tax_rows df) y))))
    with (fun x y : string => Z.compare (orden x) (orden y)).
  rewrite sorted_keys_in_declared_order.
  apply map_ext_in. intros c Hc. apply filter_In in Hc.
  now apply summary_entry_tax_rows.
Qed.

Lemma NoDup_filter {A : Type} (p : A -> bool) (l : list A) :
  NoDup l -> NoDup (filter p l).
Proof.
  induction 1 as [|x l Hx Hl IH]; cbn; [constructor|].
  destruct (p x); [|exact IH]. constructor; [|exact IH].
  intros H. apply filter_In in H. tauto.
Qed.

(** X17: the concepts of the summary are distinct categories of the
    list [categorias_interes] that occur in the ledger, at most seven, and
    each has a position in the list, so the default rank 999 is never
    used. *)
Theorem resumen_concepts (df : DataFrame) :
  NoDup (map fst (construir_resumen_impositivo df))
  /\ (List.length (construir_resumen_impositivo df) <= 7)%nat
  /\ forall c, In c (map fst (construir_resumen_impositivo df)) ->
               In c categorias_interes
               /\ occurs df c = true
               /\ index_of c categorias_interes <> None.
Proof.
  rewrite construir_resumen_impositivo_entries, map_map.
  cbn [summary_entry fst]. rewrite map_id.
  split; [|split].
  - apply NoDup_filter. unfold categorias_interes.
    repeat (constructor; [cbn; intuition discriminate|]). constructor.
  - rewrite length_map.
    etransitivity; [apply filter_length_le|]. cbn. lia.
  - intros c Hc. apply filter_In in Hc. destruct Hc as [Hc Ho].
    split; [exact Hc|]. split; [exact Ho|].
    destruct (index_of_In c _ Hc) as [i ->]. discriminate.
Qed.

(** X18: the summary depends only on the rows whose category is in the
    list [categorias_interes]: two ledgers with the same such rows have
    the same summary. *)
Theorem resumen_of_tax_rows (df1 df2 : DataFrame) :
  tax_rows df1 = tax_rows df2 ->
  construir_resumen_impositivo df1 = construir_resumen_impositivo df2.
Proof.
  intros H. rewrite !construir_resumen_impositivo_unfold. now rewrite H.
Qed.

Lemma resumen_of_tax_rows_witness :
  construir_resumen_impositivo (parse_santander_pdf sample_statement)
  = construir_resumen_impositivo
      (tax_rows (parse_santander_pdf sample_statement)).
Proof.
  apply (resumen_of_tax_rows (parse_santander_pdf sample_statement)
           (tax_rows (parse_santander_pdf sample_statement))).
  vm_compute. reflexivity.
Defined.

(** ** The totals of the report *)





(** ** Dated rows carry exactly a date *)



(** ** Short rows *)

Lemma any_cell_app_None (raw_row : list cell) (n : nat) :
  any_cell (raw_row ++ repeat None n) = any_cell raw_row.
Proof.
  unfold any_cell. rewrite existsb_app.
  assert (E : forall (f : cell -> bool), f None = false ->
                existsb f (repeat None n) = false).
  { intros f Hf. induction n as [|n IH]; [reflexivity|].
    cbn. now rewrite Hf. }
  rewrite E by reflexivity. apply orb_false_r.
Qed.

Lemma pad_to_six_padded (cells : list string) :
  pad_to_six (cells ++ repeat EmptyString (6 - List.length cells))
  = pad_to_six cells.
Proof.
  unfold pad_to_six. rewrite length_app, repeat_length.
  destruct (List.length cells <? 6)%nat eqn:L.
  - apply Nat.ltb_lt in L.
    replace (List.length cells + (6 - List.length cells))%nat with 6%nat by lia.
    reflexivity.
  - apply Nat.ltb_ge in L.
    replace (6 - List.length cells)%nat with 0%nat by lia.
    cbn [repeat]. rewrite app_nil_r, Nat.add_0_r.
    apply Nat.ltb_ge in L. now rewrite L.
Qed.

(** X20: a row is read as the row filled up to six cells with [None]:
    missing cells count as empty cells. *)
Theorem short_row_padded (raw_row : list cell) :
  read_row raw_row
  = read_row (raw_row ++ repeat None (6 - List.length raw_row)).
Proof.
  unfold read_row. rewrite any_cell_app_None.
  destruct (any_cell raw_row); [|reflexivity]. cbn [negb].
  rewrite map_app, map_repeat. cbn [or_empty]. rewrite strip_empty.
  rewrite <- (length_map (fun c : cell => strip (or_empty c)) raw_row).
  now rewrite pad_to_six_padded.
Qed.

(** ** The report *)

Lemma stable_sort_nil {A : Type} (cmp : A -> A -> comparison) (l : list A) :
  stable_sort cmp l = [] -> l = [].
Proof.
  intros H. pose proof (stable_sort_perm cmp l) as P. rewrite H in P.
  symmetry in P. now apply Permutation_nil in P.
Qed.

Lemma construir_resumen_impositivo_nil (df : DataFrame) :
  construir_resumen_impositivo df = [] <-> tax_rows df = [].
Proof.
  rewrite construir_resumen_impositivo_unfold. split.
  - intros H. apply stable_sort_nil, map_eq_nil in H.
    destruct (tax_rows df) as [|t l] eqn:E; [reflexivity|].
    assert (Hin : In (categoria t) (group_keys (t :: l)))
      by (apply group_keys_In; now left).
    rewrite H in Hin. destruct Hin.
  - intros ->. reflexivity.
Qed.

(** X21: the page reports that no movement was found exactly when no
    row of the document was accepted, and the workbook gets the sheet
    [Resumen_impositivo] exactly when some row of the ledger has a
    category of the list [categorias_interes]. *)
Theorem informe_outcomes (pdf : list (list table)) :
  (informe pdf = SinMovimientos <-> extract_rows pdf = [])
  /\ (In "Resumen_impositivo" (hojas_de (informe pdf))
      <-> exists t, In t (parse_santander_pdf pdf)
                    /\ isin (categoria t) categorias_interes = true).
Proof.
  split.
  - unfold informe. rewrite parse_santander_pdf_sorted. unfold sort_values.
    destruct (stable_sort key_compare (map complete (extract_rows pdf)))
      as [|t l] eqn:E.
    + apply stable_sort_nil, map_eq_nil in E. now rewrite E.
    + split; [discriminate|]. intros H. rewrite H in E. discriminate E.
  - unfold informe. destruct (parse_santander_pdf pdf) as [|t0 l0] eqn:E.
    + cbn. split; [intros []|intros (t & [] & _)].
    + cbn [hojas_de].
      destruct (construir_resumen_impositivo (t0 :: l0)) as [|e es] eqn:F.
      * apply construir_resumen_impositivo_nil in F. split.
        -- cbn. intros [H|[]]. discriminate H.
        -- intros (t & Ht & Hc).
           assert (Hin : In t (tax_rows (t0 :: l0)))
             by (apply filter_In; now split).
           rewrite F in Hin. destruct Hin.
      * split; [intros _|intros _; cbn; tauto].
        destruct (tax_rows (t0 :: l0)) as [|t l] eqn:G.
        -- apply construir_resumen_impositivo_nil in G. congruence.
        -- assert (Hin : In t (tax_rows (t0 :: l0))) by (rewrite G; now left).
           apply filter_In in Hin. now exists t.
Qed.
